(** * Piepmatz: the Twitter API facade (src/twitterapi.cpp)

    A shallow embedding of the request-dispatch and response-normalisation
    layer of [TwitterApi]: the identity-fallback retry of [showStatus] and
    [userTimeline], the placeholder tweet, the search de-duplication, the
    follow-state correction, the error-body parser and the Open Graph
    scraper; and, in [Refactored], the generic requests of the same file as
    its later state (unnamed/part_000) uses them.

    Qt values are modelled as the code handles them:
    - [QString] and [QByteArray] are [string] (one [ascii] per character);
    - [QJsonValue] and [QVariant] are inductive types, JSON objects and
      [QVariantMap] are [gmap string _] ([QMap::insert] replaces the value of
      an existing key, as [insert] on [gmap] does);
    - a slot is a computation in a small writer monad whose log records, in
      order, every [emit] and every request handed to a requestor;
    - Qt's event loop is a queue of exchanges in flight, completed by a
      transport. *)

From Stdlib Require Import ZArith QArith String Ascii List DecimalString.
From stdpp Require Import gmap strings list fin_maps.

#[local] Set Warnings "-register-all".
#[local] Open Scope string_scope.
#[local] Open Scope list_scope.

(** ** QString *)

Module QString.

(** [QString::indexOf(QChar)]: position of the first occurrence, [-1]
    when there is none. *)
Fixpoint indexOf (c : ascii) (s : string) : Z :=
  match s with
  | EmptyString => (-1)%Z
  | String a s' =>
      if Ascii.eqb a c then 0%Z
      else let i := indexOf c s' in
           if (i <? 0)%Z then (-1)%Z else (i + 1)%Z
  end.

(** [QString::left(n)]: the [n] leftmost characters; the whole string when
    [n] is negative or exceeds the size. *)
Fixpoint take_chars (n : nat) (s : string) : string :=
  match n, s with
  | S n', String a s' => String a (take_chars n' s')
  | _, _ => EmptyString
  end.

Definition left (n : Z) (s : string) : string :=
  if (n <? 0)%Z then s else take_chars (Z.to_nat n) s.

Definition isEmpty (s : string) : bool :=
  match s with EmptyString => true | _ => false end.

(** [QString::number(int)]: decimal notation, with a leading [-] for
    negative numbers. *)
Definition number (n : Z) : string := NilZero.string_of_int (Z.to_int n).

Definition is_lower (a : ascii) : bool :=
  (Nat.leb 97 (nat_of_ascii a)) && (Nat.leb (nat_of_ascii a) 122).

Definition upper_char (a : ascii) : ascii :=
  if is_lower a then ascii_of_nat (nat_of_ascii a - 32) else a.

(** [QString::toUpper] on the ASCII letters (header values are ASCII). *)
Fixpoint toUpper (s : string) : string :=
  match s with
  | EmptyString => EmptyString
  | String a s' => String (upper_char a) (toUpper s')
  end.

(** [indexOf(needle, 0, Qt::CaseInsensitive) != -1]. *)
Fixpoint containsCI_upper (needle s : string) : bool :=
  String.prefix needle s
  || match s with
     | EmptyString => false
     | String _ s' => containsCI_upper needle s'
     end.

Definition containsCI (needle s : string) : bool :=
  containsCI_upper (toUpper needle) (toUpper s).

End QString.

(** ** JSON values and variants *)

(** A JSON number is a double; [JDouble q] is the double of value [q]. *)
Inductive QJsonValue : Type :=
| JNull
| JUndefined
| JBool (b : bool)
| JDouble (d : Q)
| JString (s : string)
| JArray (a : list QJsonValue)
| JObject (o : gmap string QJsonValue).

Abbreviation QJsonObject := (gmap string QJsonValue).
Abbreviation QJsonArray := (list QJsonValue).

(** What [QJsonDocument::fromJson] returns: a null document for input that is
    not JSON, otherwise an array or an object. *)
Inductive QJsonDocument : Type :=
| DocNull
| DocArray (a : QJsonArray)
| DocObject (o : QJsonObject).

Inductive QVariant : Type :=
| VInvalid
| VNullptr
| VBool (b : bool)
| VDouble (d : Q)
| VString (s : string)
| VList (l : list QVariant)
| VMap (m : gmap string QVariant).

Abbreviation QVariantMap := (gmap string QVariant).
Abbreviation QVariantList := (list QVariant).

Module QJson.

(** [QJsonObject::value(key)]: [Undefined] for a missing key. *)
Definition value (o : QJsonObject) (key : string) : QJsonValue :=
  default JUndefined (o !! key).

Definition contains (o : QJsonObject) (key : string) : bool :=
  bool_decide (is_Some (o !! key)).

(** [QJsonValue::toObject()], [toArray()], [toString()]: the empty object,
    array or string when the value has another type. *)
Definition toObject (v : QJsonValue) : QJsonObject :=
  match v with JObject o => o | _ => ∅ end.

Definition toArray (v : QJsonValue) : QJsonArray :=
  match v with JArray a => a | _ => [] end.

Definition toString (v : QJsonValue) : string :=
  match v with JString s => s | _ => "" end.

Definition isArray (v : QJsonValue) : bool :=
  match v with JArray _ => true | _ => false end.

Definition INT_MIN : Z := (- 2147483648)%Z.
Definition INT_MAX : Z := 2147483647%Z.

(** [QJsonValue::toInt()]: the number when the value is a double holding a
    whole number that fits an [int], else the default [0]. *)
Definition toInt (v : QJsonValue) : Z :=
  match v with
  | JDouble d =>
      let n := (Qnum d / Zpos (Qden d))%Z in
      if ((Qnum d mod Zpos (Qden d) =? 0) && (INT_MIN <=? n) && (n <=? INT_MAX))%Z
      then n else 0%Z
  | _ => 0%Z
  end.

(** [QJsonValue::toVariant()], [QJsonArray::toVariantList()] and
    [QJsonObject::toVariantMap()]. *)
Fixpoint toVariant (v : QJsonValue) : QVariant :=
  match v with
  | JNull => VNullptr
  | JUndefined => VInvalid
  | JBool b => VBool b
  | JDouble d => VDouble d
  | JString s => VString s
  | JArray a => VList (map toVariant a)
  | JObject o => VMap (toVariant <$> o)
  end.

Definition toVariantList (a : QJsonArray) : QVariantList := map toVariant a.
Definition toVariantMap (o : QJsonObject) : QVariantMap := toVariant <$> o.

Definition isObject (d : QJsonDocument) : bool :=
  match d with DocObject _ => true | _ => false end.

End QJson.

Module QVar.

(** [QVariantMap::value(key)]: an invalid variant for a missing key. *)
Definition value (m : QVariantMap) (key : string) : QVariant :=
  default VInvalid (m !! key).

(** [QVariant::toString()] for the variants the facade stores in its maps
    (strings and booleans); an invalid variant gives the empty string. *)
Definition toString (v : QVariant) : string :=
  match v with
  | VString s => s
  | VBool true => "true"
  | VBool false => "false"
  | _ => ""
  end.

(** [variant == "text"]: the literal becomes a string variant; a variant of
    another type that is invalid, a list or a map never equals it. *)
Definition equalsString (v : QVariant) (text : string) : bool :=
  match v with
  | VString s => String.eqb s text
  | VBool b => String.eqb (toString (VBool b)) text
  | _ => false
  end.

End QVar.

(** ** Requests, replies, signals *)

(** A credential context (an [O1Requestor] object). *)
Definition O1Requestor := nat.

Abbreviation QUrlQuery := (list (string * string)).

Module UrlQuery.

(** [QUrlQuery::addQueryItem]: appended at the end. *)
Definition addQueryItem (q : QUrlQuery) (key value : string) : QUrlQuery :=
  q ++ [(key, value)].

(** [QUrlQuery::queryItemValue]: the value of the first item with that
    key, the empty string when there is none. *)
Fixpoint queryItemValue (q : QUrlQuery) (key : string) : string :=
  match q with
  | [] => ""
  | (k, v) :: q' => if String.eqb k key then v else queryItemValue q' key
  end.

Fixpoint toString (q : QUrlQuery) : string :=
  match q with
  | [] => ""
  | [(k, v)] => k +:+ "=" +:+ v
  | (k, v) :: q' => k +:+ "=" +:+ v +:+ "&" +:+ toString q'
  end.

End UrlQuery.

(** A [QUrl]: the address it was constructed from and the query set with
    [setQuery], kept as the list of items that [QUrlQuery(url)] reads back. *)
Record QUrl : Type := {
  urlAddress : string;
  urlQuery : QUrlQuery
}.

Definition QUrl_of (address : string) : QUrl :=
  {| urlAddress := address; urlQuery := [] |}.

Definition setQuery (u : QUrl) (q : QUrlQuery) : QUrl :=
  {| urlAddress := urlAddress u; urlQuery := q |}.

Definition QUrl_toString (u : QUrl) : string :=
  match urlQuery u with
  | [] => urlAddress u
  | q => urlAddress u +:+ "?" +:+ UrlQuery.toString q
  end.

Inductive KnownHeaders : Type := ContentTypeHeader | UserAgentHeader.

Record QNetworkRequest : Type := {
  url : QUrl;
  knownHeaders : list (KnownHeaders * string);
  rawHeaders : list (string * string);
  followRedirects : bool
}.

Definition QNetworkRequest_of (u : QUrl) : QNetworkRequest :=
  {| url := u; knownHeaders := []; rawHeaders := []; followRedirects := false |}.

Definition setHeader (r : QNetworkRequest) (h : KnownHeaders) (v : string) : QNetworkRequest :=
  {| url := url r; knownHeaders := knownHeaders r ++ [(h, v)];
     rawHeaders := rawHeaders r; followRedirects := followRedirects r |}.

Definition setRawHeader (r : QNetworkRequest) (name v : string) : QNetworkRequest :=
  {| url := url r; knownHeaders := knownHeaders r;
     rawHeaders := rawHeaders r ++ [(name, v)]; followRedirects := followRedirects r |}.

Definition setFollowRedirects (r : QNetworkRequest) (b : bool) : QNetworkRequest :=
  {| url := url r; knownHeaders := knownHeaders r;
     rawHeaders := rawHeaders r; followRedirects := b |}.

(** [QNetworkRequest::hasRawHeader]: header names compare without case. *)
Definition hasRawHeader (r : QNetworkRequest) (name : string) : bool :=
  existsb (fun h => String.eqb (QString.toUpper (fst h)) (QString.toUpper name))
          (rawHeaders r).

(** [QNetworkReply::NetworkError], [NoError] being [0]. *)
Definition NetworkError := Z.
Definition NoError : NetworkError := 0%Z.

(** What the transport reports when an exchange completes. *)
Record Completion : Type := {
  c_error : NetworkError;
  c_errorString : string;
  c_contentType : option string;
  c_body : string
}.

Record QNetworkReply : Type := {
  request : QNetworkRequest;
  error : NetworkError;
  errorString : string;
  header_ContentType : option string;
  readAll : string
}.

(** The signals of [TwitterApi] that the modelled operations emit. *)
Inductive Signal : Type :=
| mentionsTimelineSuccessful (result : QVariantList)
| mentionsTimelineError (errorMessage : string)
| retweetTimelineSuccessful (result : QVariantList)
| retweetTimelineError (errorMessage : string)
| showStatusSuccessful (result : QVariantMap)
| showStatusError (errorMessage : string)
| userTimelineSuccessful (result : QVariantList)
| userTimelineError (errorMessage : string)
| followUserSuccessful (result : QVariantMap)
| followUserError (errorMessage : string)
| unfollowUserSuccessful (result : QVariantMap)
| unfollowUserError (errorMessage : string)
| searchTweetsSuccessful (result : QVariantList)
| searchTweetsError (errorMessage : string)
| searchUsersSuccessful (result : QVariantList)
| searchUsersError (errorMessage : string)
| getOpenGraphSuccessful (result : QVariantMap)
| getOpenGraphError (errorMessage : string).

(** The slots that [connect] attaches to a reply's [error] and [finished]
    signals. *)
Inductive ErrorSlot : Type :=
| SlotRetweetTimelineError
| SlotShowStatusError
| SlotUserTimelineError
| SlotFollowUserError
| SlotUnfollowUserError
| SlotSearchTweetsError
| SlotSearchUsersError
| SlotGetOpenGraphError.

Inductive FinishedSlot : Type :=
| SlotRetweetTimelineFinished
| SlotShowStatusFinished
| SlotUserTimelineFinished
| SlotFollowUserFinished
| SlotUnfollowUserFinished
| SlotSearchTweetsFinished
| SlotSearchUsersFinished
| SlotGetOpenGraphFinished.

Inductive Sender : Type :=
| ViaRequestor (r : O1Requestor)
| ViaManager.

Inductive Method : Type := MethodGet | MethodPost.

(** One network call in flight: who sends it, what is sent, and the two
    slots connected to its reply. *)
Record Exchange : Type := {
  sender : Sender;
  method : Method;
  sent : QNetworkRequest;
  parameters : list (string * string);
  postData : string;
  onError : ErrorSlot;
  onFinished : FinishedSlot
}.

(** ** The monad of slots *)

Inductive Effect : Type :=
| Emit (s : Signal)
| Send (x : Exchange).

(** A computation logs its effects in order; [Fault] is the dereference of
    a null pointer. *)
Inductive Api (A : Type) : Type :=
| Fault
| Done (a : A) (log : list Effect).

Arguments Fault {A}.
Arguments Done {A} a log.

#[export] Instance Api_ret : MRet Api := fun A a => Done a [].

#[export] Instance Api_bind : MBind Api := fun A B k m =>
  match m with
  | Fault => Fault
  | Done a w =>
      match k a with
      | Fault => Fault
      | Done b w' => Done b (w ++ w')
      end
  end.

Definition emit (s : Signal) : Api unit := Done tt [Emit s].
Definition send (x : Exchange) : Api unit := Done tt [Send x].

Definition signalsOf (w : list Effect) : list Signal :=
  omap (fun e => match e with Emit s => Some s | Send _ => None end) w.

Definition exchangesOf (w : list Effect) : list Exchange :=
  omap (fun e => match e with Send x => Some x | Emit _ => None end) w.

(** ** Regular expressions

    The patterns of the scraper use literals, greedy repetitions of a
    character class and one capture group; [matchAt] is a backtracking
    matcher for them, in continuation-passing style. *)

Module Regex.

Inductive Regex : Type :=
| Lit (text : string)
| Star (cls : ascii -> bool)
| Plus (cls : ascii -> bool)
| Seq (r1 r2 : Regex)
| Cap (r : Regex).

Record Match : Type := {
  captured : string;
  after : string
}.

Fixpoint stripPrefix (p s : string) : option string :=
  match p, s with
  | EmptyString, _ => Some s
  | String a p', String b s' => if Ascii.eqb a b then stripPrefix p' s' else None
  | String _ _, EmptyString => None
  end.

(** Greedy [cls*]: the longest run first, then shorter ones. *)
Fixpoint star {R} (cls : ascii -> bool) (s : string) (k : string -> option R) : option R :=
  match s with
  | String a s' =>
      if cls a then
        match star cls s' k with
        | Some r => Some r
        | None => k s
        end
      else k s
  | EmptyString => k s
  end.

Fixpoint matchAt {R} (r : Regex) (s : string) (cap : option string)
         (k : string -> option string -> option R) : option R :=
  match r with
  | Lit t =>
      match stripPrefix t s with
      | Some rest => k rest cap
      | None => None
      end
  | Star cls => star cls s (fun rest => k rest cap)
  | Plus cls =>
      match s with
      | String a s' => if cls a then star cls s' (fun rest => k rest cap) else None
      | EmptyString => None
      end
  | Seq r1 r2 => matchAt r1 s cap (fun rest cap' => matchAt r2 rest cap' k)
  | Cap r1 =>
      matchAt r1 s cap (fun rest _ =>
        k rest (Some (QString.take_chars (String.length s - String.length rest) s)))
  end.

Definition matchHere (r : Regex) (s : string) : option Match :=
  matchAt r s None (fun rest cap =>
    Some {| captured := default "" cap; after := rest |}).

(** The leftmost match ([QRegExp::indexIn], one step of
    [QRegularExpression::globalMatch]). *)
Fixpoint search (r : Regex) (s : string) : option Match :=
  match matchHere r s with
  | Some m => Some m
  | None =>
      match s with
      | String _ s' => search r s'
      | EmptyString => None
      end
  end.

Fixpoint globalMatchFrom (fuel : nat) (r : Regex) (s : string) : list Match :=
  match fuel with
  | O => []
  | S fuel' =>
      match search r s with
      | None => []
      | Some m => m :: globalMatchFrom fuel' r (after m)
      end
  end.

(** All matches from left to right, each search starting where the
    previous match ended. A match of the patterns below is never empty, so
    the length of the subject bounds the number of matches. *)
Definition globalMatch (r : Regex) (s : string) : list Match :=
  globalMatchFrom (S (String.length s)) r s.

Definition char_in (l : list nat) (a : ascii) : bool :=
  existsb (Nat.eqb (nat_of_ascii a)) l.

(** [\s] of PCRE: space, tab, line feed, vertical tab, form feed, carriage
    return. *)
Definition pcre_space : ascii -> bool := char_in [32; 9; 10; 11; 12; 13].

(** [\s] of [QRegExp] is [QChar::isSpace], which adds the next-line and
    no-break space characters. *)
Definition qchar_isSpace : ascii -> bool := char_in [32; 9; 10; 11; 12; 13; 133; 160].

Definition dquote : nat := 34.
Definition squote : nat := 39.
Definition comma : nat := 44.
Definition greater : nat := 62.
Definition quoted (s : string) : string :=
  String (ascii_of_nat dquote) s +:+ String (ascii_of_nat dquote) "".

End Regex.

(** ** The facade *)

(** What the facade takes from its header file and from its collaborators:
    the constants of [twitterapi.h], the JSON parser, the text codecs and the
    query encoders. [HEADER_NO_RECURSION] is the facade's own header name; the
    headers that Qt and the signing requestor add to a request are none of
    [rawHeaders]. *)
Class Platform : Type := {
  HEADER_NO_RECURSION : string;
  DEFAULT_ERROR_MESSAGE : string;
  O2_MIME_TYPE_XFORM : string;
  API_STATUSES_RETWEET_TIMELINE : string;
  API_STATUSES_SHOW : string;
  API_STATUSES_USER_TIMELINE : string;
  API_FRIENDSHIPS_CREATE : string;
  API_FRIENDSHIPS_DESTROY : string;
  API_SEARCH_TWEETS : string;
  API_SEARCH_USERS : string;
  fromJson : string -> QJsonDocument;
  QTextCodec : Type;
  codecForName : string -> option QTextCodec;
  toUnicode : QTextCodec -> string -> string;
  toPercentEncoding : string -> string;
  createQueryParameters : list (string * string) -> string
}.

Record TwitterApi : Type := {
  requestor : O1Requestor;
  secretIdentityRequestor : option O1Requestor
}.

Section Facade.

Context `{Platform}.
Variable api : TwitterApi.

(** *** Request dispatch *)

Definition retweetTimeline : Api unit :=
  let url := QUrl_of API_STATUSES_RETWEET_TIMELINE in
  let urlQuery : QUrlQuery := [] in
  let urlQuery := UrlQuery.addQueryItem urlQuery "tweet_mode" "extended" in
  let urlQuery := UrlQuery.addQueryItem urlQuery "include_entities" "true" in
  let urlQuery := UrlQuery.addQueryItem urlQuery "trim_user" "false" in
  let urlQuery := UrlQuery.addQueryItem urlQuery "count" "10" in
  let urlQuery := UrlQuery.addQueryItem urlQuery "include_ext_alt_text" "true" in
  let url := setQuery url urlQuery in
  let request := QNetworkRequest_of url in
  let request := setHeader request ContentTypeHeader O2_MIME_TYPE_XFORM in
  let requestParameters :=
    [("tweet_mode", "extended"); ("include_entities", "true");
     ("trim_user", "false"); ("count", "10"); ("include_ext_alt_text", "true")] in
  send {| sender := ViaRequestor (requestor api); method := MethodGet;
          sent := request; parameters := requestParameters; postData := "";
          onError := SlotRetweetTimelineError;
          onFinished := SlotRetweetTimelineFinished |}.

(** The status id up to its first question mark. *)
Definition sanitizedStatus (statusId : string) : string :=
  let qm := QString.indexOf "?"%char statusId in
  if (0 <=? qm)%Z then QString.left qm statusId else statusId.

Definition showStatus (statusId : string) (useSecretIdentity : bool) : Api unit :=
  let sanitizedStatus := sanitizedStatus statusId in
  let url := QUrl_of API_STATUSES_SHOW in
  let urlQuery : QUrlQuery := [] in
  let urlQuery := UrlQuery.addQueryItem urlQuery "tweet_mode" "extended" in
  let urlQuery := UrlQuery.addQueryItem urlQuery "include_entities" "true" in
  let urlQuery := UrlQuery.addQueryItem urlQuery "trim_user" "false" in
  let urlQuery := UrlQuery.addQueryItem urlQuery "id" sanitizedStatus in
  let urlQuery := UrlQuery.addQueryItem urlQuery "include_ext_alt_text" "true" in
  let url := setQuery url urlQuery in
  let request := QNetworkRequest_of url in
  let request := setHeader request ContentTypeHeader O2_MIME_TYPE_XFORM in
  let requestParameters :=
    [("tweet_mode", "extended"); ("include_entities", "true");
     ("trim_user", "false"); ("id", sanitizedStatus);
     ("include_ext_alt_text", "true")] in
  match useSecretIdentity, secretIdentityRequestor api with
  | true, Some secret =>
      let request := setRawHeader request HEADER_NO_RECURSION "X" in
      send {| sender := ViaRequestor secret; method := MethodGet;
              sent := request; parameters := requestParameters; postData := "";
              onError := SlotShowStatusError; onFinished := SlotShowStatusFinished |}
  | _, _ =>
      send {| sender := ViaRequestor (requestor api); method := MethodGet;
              sent := request; parameters := requestParameters; postData := "";
              onError := SlotShowStatusError; onFinished := SlotShowStatusFinished |}
  end.

Definition userTimeline (screenName : string) (useSecretIdentity : bool) : Api unit :=
  let url := QUrl_of API_STATUSES_USER_TIMELINE in
  let urlQuery : QUrlQuery := [] in
  let urlQuery := UrlQuery.addQueryItem urlQuery "tweet_mode" "extended" in
  let urlQuery := UrlQuery.addQueryItem urlQuery "count" "200" in
  let urlQuery := UrlQuery.addQueryItem urlQuery "include_rts" "true" in
  let urlQuery := UrlQuery.addQueryItem urlQuery "exclude_replies" "false" in
  let urlQuery := UrlQuery.addQueryItem urlQuery "screen_name" screenName in
  let urlQuery := UrlQuery.addQueryItem urlQuery "include_ext_alt_text" "true" in
  let url := setQuery url urlQuery in
  let request := QNetworkRequest_of url in
  let request := setHeader request ContentTypeHeader O2_MIME_TYPE_XFORM in
  let requestParameters :=
    [("tweet_mode", "extended"); ("count", "200"); ("include_rts", "true");
     ("exclude_replies", "false"); ("screen_name", screenName);
     ("include_ext_alt_text", "true")] in
  match useSecretIdentity, secretIdentityRequestor api with
  | true, Some secret =>
      let request := setRawHeader request HEADER_NO_RECURSION "X" in
      send {| sender := ViaRequestor secret; method := MethodGet;
              sent := request; parameters := requestParameters; postData := "";
              onError := SlotUserTimelineError; onFinished := SlotUserTimelineFinished |}
  | _, _ =>
      send {| sender := ViaRequestor (requestor api); method := MethodGet;
              sent := request; parameters := requestParameters; postData := "";
              onError := SlotUserTimelineError; onFinished := SlotUserTimelineFinished |}
  end.

Definition followUser (screenName : string) : Api unit :=
  let url := QUrl_of API_FRIENDSHIPS_CREATE in
  let request := QNetworkRequest_of url in
  let request := setHeader request ContentTypeHeader O2_MIME_TYPE_XFORM in
  let requestParameters := [("tweet_mode", "extended"); ("screen_name", screenName)] in
  let postData := createQueryParameters requestParameters in
  send {| sender := ViaRequestor (requestor api); method := MethodPost;
          sent := request; parameters := requestParameters; postData := postData;
          onError := SlotFollowUserError; onFinished := SlotFollowUserFinished |}.

Definition unfollowUser (screenName : string) : Api unit :=
  let url := QUrl_of API_FRIENDSHIPS_DESTROY in
  let request := QNetworkRequest_of url in
  let request := setHeader request ContentTypeHeader O2_MIME_TYPE_XFORM in
  let requestParameters := [("tweet_mode", "extended"); ("screen_name", screenName)] in
  let postData := createQueryParameters requestParameters in
  send {| sender := ViaRequestor (requestor api); method := MethodPost;
          sent := request; parameters := requestParameters; postData := postData;
          onError := SlotUnfollowUserError; onFinished := SlotUnfollowUserFinished |}.

Definition searchTweets (query : string) : Api unit :=
  if QString.isEmpty query then
    emit (searchTweetsSuccessful [])
  else
    let searchString := toPercentEncoding query in
    let url := QUrl_of API_SEARCH_TWEETS in
    let urlQuery : QUrlQuery := [] in
    let urlQuery := UrlQuery.addQueryItem urlQuery "tweet_mode" "extended" in
    let urlQuery := UrlQuery.addQueryItem urlQuery "q" searchString in
    let urlQuery := UrlQuery.addQueryItem urlQuery "count" "100" in
    let urlQuery := UrlQuery.addQueryItem urlQuery "include_entities" "true" in
    let urlQuery := UrlQuery.addQueryItem urlQuery "include_ext_alt_text" "true" in
    let url := setQuery url urlQuery in
    let request := QNetworkRequest_of url in
    let request := setHeader request ContentTypeHeader O2_MIME_TYPE_XFORM in
    let requestParameters :=
      [("tweet_mode", "extended"); ("q", query); ("count", "100");
       ("include_entities", "true"); ("include_ext_alt_text", "true")] in
    send {| sender := ViaRequestor (requestor api); method := MethodGet;
            sent := request; parameters := requestParameters; postData := "";
            onError := SlotSearchTweetsError; onFinished := SlotSearchTweetsFinished |}.

Definition searchUsers (query : string) : Api unit :=
  if QString.isEmpty query then
    emit (searchUsersSuccessful [])
  else
    let searchString := toPercentEncoding query in
    let url := QUrl_of API_SEARCH_USERS in
    let urlQuery : QUrlQuery := [] in
    let urlQuery := UrlQuery.addQueryItem urlQuery "tweet_mode" "extended" in
    let urlQuery := UrlQuery.addQueryItem urlQuery "q" searchString in
    let urlQuery := UrlQuery.addQueryItem urlQuery "count" "20" in
    let urlQuery := UrlQuery.addQueryItem urlQuery "include_entities" "true" in
    let url := setQuery url urlQuery in
    let request := QNetworkRequest_of url in
    let request := setHeader request ContentTypeHeader O2_MIME_TYPE_XFORM in
    let requestParameters :=
      [("tweet_mode", "extended"); ("q", query); ("count", "20");
       ("include_entities", "true")] in
    send {| sender := ViaRequestor (requestor api); method := MethodGet;
            sent := request; parameters := requestParameters; postData := "";
            onError := SlotSearchUsersError; onFinished := SlotSearchUsersFinished |}.

Definition getOpenGraph (address : string) : Api unit :=
  let url := QUrl_of address in
  let request := QNetworkRequest_of url in
  let request := setFollowRedirects request true in
  let request := setHeader request UserAgentHeader
                   "Mozilla/5.0 (Wayland; SailfishOS) Piepmatz (Not Firefox/52.0)" in
  let request := setRawHeader request "Accept" "text/html,application/xhtml+xml" in
  let request := setRawHeader request "Accept-Charset" "utf-8" in
  let request := setRawHeader request "Connection" "close" in
  let request := setRawHeader request "Cache-Control" "max-age=0" in
  send {| sender := ViaManager; method := MethodGet;
          sent := request; parameters := []; postData := "";
          onError := SlotGetOpenGraphError; onFinished := SlotGetOpenGraphFinished |}.

(** *** Error bodies *)

Definition parseErrorResponse (errorText responseText : string) : QVariantMap :=
  let errorResponse : QVariantMap := ∅ in
  let errorResponse := <["message" := VString errorText]> errorResponse in
  let jsonDocument := fromJson responseText in
  match jsonDocument with
  | DocObject object =>
      let errorsValue := QJson.value object "errors" in
      if QJson.isArray errorsValue then
        fold_left
          (fun (errorResponse : QVariantMap) (errorsValue : QJsonValue) =>
             let errorElementObject := QJson.toObject errorsValue in
             let errorResponse :=
               <["code" := VString (QString.number
                   (QJson.toInt (QJson.value errorElementObject "code")))]>
                 errorResponse in
             <["message" := VString
                 (QJson.toString (QJson.value errorElementObject "message"))]>
               errorResponse)
          (QJson.toArray errorsValue) errorResponse
      else errorResponse
  | _ => errorResponse
  end.

Definition replyOf (x : Exchange) (c : Completion) : QNetworkReply :=
  {| request := sent x; error := c_error c; errorString := c_errorString c;
     header_ContentType := c_contentType c; readAll := c_body c |}.

Definition failed (reply : QNetworkReply) : bool :=
  negb (error reply =? NoError)%Z.

(** *** Slots of the retweet timeline *)

Definition handleRetweetTimelineError (reply : QNetworkReply) : Api unit :=
  let parsedErrorResponse := parseErrorResponse (errorString reply) (readAll reply) in
  emit (mentionsTimelineError
          (QVar.toString (QVar.value parsedErrorResponse "message"))).

Definition handleRetweetTimelineFinished (reply : QNetworkReply) : Api unit :=
  if failed reply then mret tt
  else
    let jsonDocument := fromJson (readAll reply) in
    match jsonDocument with
    | DocArray responseArray =>
        emit (retweetTimelineSuccessful (QJson.toVariantList responseArray))
    | _ => emit (retweetTimelineError
                   "Piepmatz couldn't understand Twitter's response!")
    end.

(** *** Slots of the user timeline *)

Definition handleUserTimelineError (reply : QNetworkReply) : Api unit :=
  let parsedErrorResponse := parseErrorResponse (errorString reply) (readAll reply) in
  let urlQuery := urlQuery (url (request reply)) in
  if bool_decide (secretIdentityRequestor api ≠ None)
     && QVar.equalsString (QVar.value parsedErrorResponse "code") "136"
     && negb (hasRawHeader (request reply) HEADER_NO_RECURSION) then
    userTimeline (UrlQuery.queryItemValue urlQuery "screen_name") true
  else
    emit (userTimelineError
            (QVar.toString (QVar.value parsedErrorResponse "message"))).

Definition handleUserTimelineFinished (reply : QNetworkReply) : Api unit :=
  if failed reply then mret tt
  else
    let jsonDocument := fromJson (readAll reply) in
    match jsonDocument with
    | DocArray responseArray =>
        emit (userTimelineSuccessful (QJson.toVariantList responseArray))
    | _ => emit (userTimelineError
                   "Piepmatz couldn't understand Twitter's response!")
    end.

(** *** Slots of the single status *)

(** The tweet that stands for a status that could not be loaded. *)
Definition fakeTweetFor (id_str full_text : string) : QVariantMap :=
  let fakeTweet : QVariantMap := ∅ in
  let fakeTweet := <["fakeTweet" := VBool true]> fakeTweet in
  let fakeUser : QVariantMap := ∅ in
  let fakeUser := <["name" := VString ""]> fakeUser in
  let fakeUser := <["verified" := VBool false]> fakeUser in
  let fakeUser := <["protected" := VBool false]> fakeUser in
  let fakeUser := <["profile_image_url_https" := VString ""]> fakeUser in
  let fakeTweet := <["user" := VMap fakeUser]> fakeTweet in
  let fakeTweet := <["source" := VString "Piepmatz"]> fakeTweet in
  let fakeTweet := <["retweeted" := VBool false]> fakeTweet in
  let fakeTweet := <["favorited" := VBool false]> fakeTweet in
  let fakeEntities : QVariantMap := ∅ in
  let fakeHashtags : QVariantList := [] in
  let fakeEntities := <["hashtags" := VList fakeHashtags]> fakeEntities in
  let fakeSymbols : QVariantList := [] in
  let fakeEntities := <["symbols" := VList fakeSymbols]> fakeEntities in
  let fakeUrls : QVariantList := [] in
  let fakeEntities := <["urls" := VList fakeUrls]> fakeEntities in
  let fakeMentions : QVariantList := [] in
  let fakeEntities := <["user_mentions" := VList fakeMentions]> fakeEntities in
  let fakeTweet := <["entities" := VMap fakeEntities]> fakeTweet in
  let fakeTweet := <["created_at" := VString "Sun Jan 05 13:05:00 +0000 2020"]> fakeTweet in
  let fakeTweet := <["id_str" := VString id_str]> fakeTweet in
  <["full_text" := VString full_text]> fakeTweet.

Definition handleShowStatusError (reply : QNetworkReply) : Api unit :=
  let parsedErrorResponse := parseErrorResponse (errorString reply) (readAll reply) in
  let urlQuery := urlQuery (url (request reply)) in
  if bool_decide (secretIdentityRequestor api ≠ None)
     && QVar.equalsString (QVar.value parsedErrorResponse "code") "136"
     && negb (hasRawHeader (request reply) HEADER_NO_RECURSION) then
    showStatus (UrlQuery.queryItemValue urlQuery "id") true
  else
    emit (showStatusSuccessful
            (fakeTweetFor (UrlQuery.queryItemValue urlQuery "id")
               (QVar.toString (QVar.value parsedErrorResponse "message")))).

Definition handleShowStatusFinished (reply : QNetworkReply) : Api unit :=
  if failed reply then mret tt
  else
    let jsonDocument := fromJson (readAll reply) in
    match jsonDocument with
    | DocObject responseObject =>
        emit (showStatusSuccessful (QJson.toVariantMap responseObject))
    | _ => emit (showStatusError
                   "Piepmatz couldn't understand Twitter's response!")
    end.

(** *** Slots of follow and unfollow *)

Definition handleFollowUserError (reply : QNetworkReply) : Api unit :=
  let parsedErrorResponse := parseErrorResponse (errorString reply) (readAll reply) in
  emit (followUserError (QVar.toString (QVar.value parsedErrorResponse "message"))).

Definition handleFollowUserFinished (reply : QNetworkReply) : Api unit :=
  if failed reply then mret tt
  else
    let jsonDocument := fromJson (readAll reply) in
    match jsonDocument with
    | DocObject responseObject =>
        let responseObject := delete "following" responseObject in
        let responseObject := <["following" := JBool true]> responseObject in
        emit (followUserSuccessful (QJson.toVariantMap responseObject))
    | _ => emit (followUserError DEFAULT_ERROR_MESSAGE)
    end.

Definition handleUnfollowUserError (reply : QNetworkReply) : Api unit :=
  let parsedErrorResponse := parseErrorResponse (errorString reply) (readAll reply) in
  emit (unfollowUserError (QVar.toString (QVar.value parsedErrorResponse "message"))).

Definition handleUnfollowUserFinished (reply : QNetworkReply) : Api unit :=
  if failed reply then mret tt
  else
    let jsonDocument := fromJson (readAll reply) in
    match jsonDocument with
    | DocObject responseObject =>
        let responseObject := delete "following" responseObject in
        let responseObject := <["following" := JBool false]> responseObject in
        emit (unfollowUserSuccessful (QJson.toVariantMap responseObject))
    | _ => emit (unfollowUserError DEFAULT_ERROR_MESSAGE)
    end.

(** *** Slots of the searches *)

Definition handleSearchTweetsError (reply : QNetworkReply) : Api unit :=
  let parsedErrorResponse := parseErrorResponse (errorString reply) (readAll reply) in
  emit (searchTweetsError (QVar.toString (QVar.value parsedErrorResponse "message"))).

(** The id under which a search result is counted: that of the retweeted
    status when the entry has one. *)
Definition currentStatusIdOf (currentObject : QJsonObject) : string :=
  if QJson.contains currentObject "retweeted_status" then
    QJson.toString
      (QJson.value (QJson.toObject (QJson.value currentObject "retweeted_status"))
         "id_str")
  else QJson.toString (QJson.value currentObject "id_str").

(** One turn of the loop over [originalResultsArray]. *)
Definition removeDuplicateStep (acc : list string * QJsonArray) (entry : QJsonValue)
  : list string * QJsonArray :=
  let '(foundStatusIds, resultsArray) := acc in
  let currentObject := QJson.toObject entry in
  let currentStatusId := currentStatusIdOf currentObject in
  if negb (bool_decide (currentStatusId ∈ foundStatusIds)) then
    (foundStatusIds ++ [currentStatusId], resultsArray ++ [JObject currentObject])
  else (foundStatusIds, resultsArray).

Definition removeDuplicateTweets (originalResultsArray : QJsonArray) : QJsonArray :=
  snd (fold_left removeDuplicateStep originalResultsArray ([], [])).

Definition handleSearchTweetsFinished (reply : QNetworkReply) : Api unit :=
  if failed reply then mret tt
  else
    let jsonDocument := fromJson (readAll reply) in
    match jsonDocument with
    | DocObject responseObject =>
        let originalResultsArray := QJson.toArray (QJson.value responseObject "statuses") in
        let resultsArray := removeDuplicateTweets originalResultsArray in
        emit (searchTweetsSuccessful (QJson.toVariantList resultsArray))
    | _ => emit (searchTweetsError DEFAULT_ERROR_MESSAGE)
    end.

Definition handleSearchUsersError (reply : QNetworkReply) : Api unit :=
  let parsedErrorResponse := parseErrorResponse (errorString reply) (readAll reply) in
  emit (searchUsersError (QVar.toString (QVar.value parsedErrorResponse "message"))).

Definition handleSearchUsersFinished (reply : QNetworkReply) : Api unit :=
  if failed reply then mret tt
  else
    let jsonDocument := fromJson (readAll reply) in
    match jsonDocument with
    | DocArray responseArray =>
        emit (searchUsersSuccessful (QJson.toVariantList responseArray))
    | _ => emit (searchUsersError DEFAULT_ERROR_MESSAGE)
    end.

(** *** Slots of the Open Graph scraper *)

Definition handleGetOpenGraphError (reply : QNetworkReply) : Api unit :=
  let parsedErrorResponse := parseErrorResponse (errorString reply) (readAll reply) in
  emit (getOpenGraphError (QVar.toString (QVar.value parsedErrorResponse "message"))).

(** The charset pattern: the word charset, any white space, an equals
    sign, any run of white space and quotes, and then, captured, the run of
    characters up to the next white space, quote, comma or greater-than
    sign. *)
Definition charsetRegularExpression : Regex.Regex :=
  Regex.Seq (Regex.Lit "charset")
 (Regex.Seq (Regex.Star Regex.pcre_space)
 (Regex.Seq (Regex.Lit "=")
 (Regex.Seq (Regex.Star (fun a => Regex.pcre_space a
                                  || Regex.char_in [Regex.dquote; Regex.squote] a))
            (Regex.Cap (Regex.Star (fun a =>
               negb (Regex.pcre_space a
                     || Regex.char_in [Regex.dquote; Regex.squote;
                                       Regex.comma; Regex.greater] a))))))).

(** The charsets that the content type declares, in upper case. *)
Definition availableCharsetsOf (contentTypeHeader : string) : list string :=
  map (fun nextMatch => QString.toUpper (Regex.captured nextMatch))
      (Regex.globalMatch charsetRegularExpression contentTypeHeader).

(** The charset in which the document is read. *)
Definition charsetOf (contentTypeHeader : string) : string :=
  let charset := "UTF-8" in
  let availableCharsets := availableCharsetsOf contentTypeHeader in
  if (0 <? length availableCharsets)%nat
     && negb (bool_decide ("UTF-8" ∈ availableCharsets))
  then List.last availableCharsets "" else charset.

(** The pattern of a meta tag: the text <meta, white space, the property
    attribute with the quoted value og:NAME, white space, the content
    attribute with, captured, the non-empty run of characters up to the
    closing double quote. *)
Definition ogRegex (name : string) : Regex.Regex :=
  Regex.Seq (Regex.Lit "<meta")
 (Regex.Seq (Regex.Plus Regex.qchar_isSpace)
 (Regex.Seq (Regex.Lit ("property=" +:+ Regex.quoted ("og:" +:+ name)))
 (Regex.Seq (Regex.Plus Regex.qchar_isSpace)
 (Regex.Seq (Regex.Lit ("content=" +:+ String (ascii_of_nat Regex.dquote) ""))
 (Regex.Seq (Regex.Cap (Regex.Plus (fun a => negb (Regex.char_in [Regex.dquote] a))))
            (Regex.Lit (String (ascii_of_nat Regex.dquote) ""))))))).

Definition urlRegex : Regex.Regex := ogRegex "url".
Definition imageRegex : Regex.Regex := ogRegex "image".
Definition descriptionRegex : Regex.Regex := ogRegex "description".
Definition titleRegex : Regex.Regex := ogRegex "title".

(** [regex.indexIn(document) != -1], then [regex.cap(1)]. *)
Definition insertCaptured (regex : Regex.Regex) (resultDocument key : string)
           (openGraphData : QVariantMap) : QVariantMap :=
  match Regex.search regex resultDocument with
  | Some found => <[key := VString (Regex.captured found)]> openGraphData
  | None => openGraphData
  end.

(** The scan of the decoded document. *)
Definition scanOpenGraph (requestAddress resultDocument : string) : Api unit :=
  let openGraphData : QVariantMap := ∅ in
  let openGraphData := insertCaptured urlRegex resultDocument "url" openGraphData in
  let openGraphData := insertCaptured imageRegex resultDocument "image" openGraphData in
  let openGraphData :=
    insertCaptured descriptionRegex resultDocument "description" openGraphData in
  let openGraphData := insertCaptured titleRegex resultDocument "title" openGraphData in
  if bool_decide (openGraphData = ∅) then
    emit (getOpenGraphError (requestAddress +:+ " does not contain Open Graph data"))
  else
    let openGraphData := <["url" := VString requestAddress]> openGraphData in
    let openGraphData :=
      if negb (bool_decide (is_Some (openGraphData !! "title"))) then
        <["title" := QVar.value openGraphData "url"]> openGraphData
      else openGraphData in
    emit (getOpenGraphSuccessful openGraphData).

Definition handleGetOpenGraphFinished (reply : QNetworkReply) : Api unit :=
  if failed reply then mret tt
  else
    let requestAddress := QUrl_toString (url (request reply)) in
    match header_ContentType reply with
    | None => mret tt
    | Some contentTypeHeader =>
        if negb (QString.containsCI "text/html" contentTypeHeader) then mret tt
        else
          let charset := charsetOf contentTypeHeader in
          let rawDocument := readAll reply in
          match codecForName charset with
          | None => Fault
          | Some codec =>
              let resultDocument := toUnicode codec rawDocument in
              scanOpenGraph requestAddress resultDocument
          end
    end.

(** *** The generic failure handler *)

Definition genericHandlerFailure (errorSignal : string -> Signal)
           (reply : QNetworkReply) : Api unit :=
  let parsedErrorResponse := parseErrorResponse (errorString reply) (readAll reply) in
  emit (errorSignal (QVar.toString (QVar.value parsedErrorResponse "message"))).

(** *** Completion of an exchange *)

Definition invokeError (slot : ErrorSlot) (reply : QNetworkReply) : Api unit :=
  match slot with
  | SlotRetweetTimelineError => handleRetweetTimelineError reply
  | SlotShowStatusError => handleShowStatusError reply
  | SlotUserTimelineError => handleUserTimelineError reply
  | SlotFollowUserError => handleFollowUserError reply
  | SlotUnfollowUserError => handleUnfollowUserError reply
  | SlotSearchTweetsError => handleSearchTweetsError reply
  | SlotSearchUsersError => handleSearchUsersError reply
  | SlotGetOpenGraphError => handleGetOpenGraphError reply
  end.

Definition invokeFinished (slot : FinishedSlot) (reply : QNetworkReply) : Api unit :=
  match slot with
  | SlotRetweetTimelineFinished => handleRetweetTimelineFinished reply
  | SlotShowStatusFinished => handleShowStatusFinished reply
  | SlotUserTimelineFinished => handleUserTimelineFinished reply
  | SlotFollowUserFinished => handleFollowUserFinished reply
  | SlotUnfollowUserFinished => handleUnfollowUserFinished reply
  | SlotSearchTweetsFinished => handleSearchTweetsFinished reply
  | SlotSearchUsersFinished => handleSearchUsersFinished reply
  | SlotGetOpenGraphFinished => handleGetOpenGraphFinished reply
  end.

(** A reply that failed signals [error] and then [finished]; a reply that
    succeeded signals [finished] only. The connected slots run in that
    order. *)
Definition deliver (x : Exchange) (c : Completion) : Api unit :=
  let reply := replyOf x c in
  if failed reply then
    invokeError (onError x) reply ;; invokeFinished (onFinished x) reply
  else invokeFinished (onFinished x) reply.

(** *** The event loop *)

Record Loop : Type := {
  inFlight : list Exchange;
  issued : list Exchange;
  observed : list Signal
}.

Definition idle : Loop := {| inFlight := []; issued := []; observed := [] |}.

(** The effects of a call or of a slot: the requests sent are in flight,
    the signals emitted are observed by the caller. *)
Definition absorb (st : Loop) (w : list Effect) : Loop :=
  {| inFlight := inFlight st ++ exchangesOf w;
     issued := issued st ++ exchangesOf w;
     observed := observed st ++ signalsOf w |}.

Inductive Outcome : Type :=
| Quiescent (st : Loop)
| Crashed
| OutOfFuel (st : Loop).

(** A call from the presentation layer on an idle facade. *)
Definition call (m : Api unit) : Outcome :=
  match m with
  | Fault => Crashed
  | Done _ w => Quiescent (absorb idle w)
  end.

(** The exchanges in flight complete one after the other, each as the
    transport decides. *)
Fixpoint run (transport : Exchange -> Completion) (fuel : nat) (st : Loop) : Outcome :=
  match inFlight st with
  | [] => Quiescent st
  | x :: rest =>
      match fuel with
      | O => OutOfFuel st
      | S fuel' =>
          match deliver x (transport x) with
          | Fault => Crashed
          | Done _ w =>
              run transport fuel'
                  (absorb {| inFlight := rest; issued := issued st;
                             observed := observed st |} w)
          end
      end
  end.

(** A call, and then the event loop until nothing is in flight. *)
Definition callAndRun (transport : Exchange -> Completion) (fuel : nat)
           (m : Api unit) : Outcome :=
  match call m with
  | Quiescent st => run transport fuel st
  | o => o
  end.

(** *** Vocabulary of the statements *)

(** The text that the error slots show: the message of the error report. *)
Definition reportedMessage (c : Completion) : string :=
  QVar.toString (QVar.value (parseErrorResponse (c_errorString c) (c_body c)) "message").

(** The id that a single-status exchange asks for. *)
Definition requestedId (x : Exchange) : string :=
  UrlQuery.queryItemValue (urlQuery (url (sent x))) "id".

(** The id under which an entry of the search answer is counted, and the
    entry as the loop appends it. *)
Definition underlyingId (entry : QJsonValue) : string :=
  currentStatusIdOf (QJson.toObject entry).

Definition normalized (entry : QJsonValue) : QJsonValue :=
  JObject (QJson.toObject entry).

End Facade.

(** ** Sample data

    A platform and a few exchanges on which the statements below are
    exercised. The sample parser knows four bodies. *)

Module Sample.

Definition blockedError : QJsonValue :=
  JObject (<["code" := JDouble (136 # 1)]>
           (<["message" := JString "You have been blocked"]> ∅)).

Definition notFoundError : QJsonValue :=
  JObject (<["code" := JDouble (144 # 1)]>
           (<["message" := JString "No status found with that ID."]> ∅)).

Definition tweet (id_str : string) : QJsonValue :=
  JObject (<["id_str" := JString id_str]> ∅).

Definition retweet (id_str original : string) : QJsonValue :=
  JObject (<["id_str" := JString id_str]>
           (<["retweeted_status" := tweet original]> ∅)).

Definition sampleFromJson (text : string) : QJsonDocument :=
  if String.eqb text "blocked" then
    DocObject (<["errors" := JArray [notFoundError; blockedError]]> ∅)
  else if String.eqb text "user" then
    DocObject (<["screen_name" := JString "piepmatz"]>
               (<["following" := JBool false]> ∅))
  else if String.eqb text "followed" then
    DocObject (<["screen_name" := JString "piepmatz"]>
               (<["following" := JBool true]> ∅))
  else if String.eqb text "search" then
    DocObject (<["statuses" :=
                  JArray [retweet "5" "1"; tweet "2"; tweet "1"; retweet "7" "2"]]> ∅)
  else DocNull.

(** The sample codecs read a document as it is. *)
Definition sampleCodecForName (name : string) : option unit :=
  if String.eqb name "UTF-8" || String.eqb name "ISO-8859-1" then Some tt else None.

#[export] Instance samplePlatform : Platform := {|
  HEADER_NO_RECURSION := "X-No-Recursion";
  DEFAULT_ERROR_MESSAGE := "Piepmatz couldn't understand Twitter's response!";
  O2_MIME_TYPE_XFORM := "application/x-www-form-urlencoded";
  API_STATUSES_RETWEET_TIMELINE := "https://api.twitter.com/1.1/statuses/retweets_of_me.json";
  API_STATUSES_SHOW := "https://api.twitter.com/1.1/statuses/show.json";
  API_STATUSES_USER_TIMELINE := "https://api.twitter.com/1.1/statuses/user_timeline.json";
  API_FRIENDSHIPS_CREATE := "https://api.twitter.com/1.1/friendships/create.json";
  API_FRIENDSHIPS_DESTROY := "https://api.twitter.com/1.1/friendships/destroy.json";
  API_SEARCH_TWEETS := "https://api.twitter.com/1.1/search/tweets.json";
  API_SEARCH_USERS := "https://api.twitter.com/1.1/users/search.json";
  fromJson := sampleFromJson;
  QTextCodec := unit;
  codecForName := sampleCodecForName;
  toUnicode := fun _ rawDocument => rawDocument;
  toPercentEncoding := fun text => text;
  createQueryParameters := UrlQuery.toString
|}.

Definition withSecret : TwitterApi :=
  {| requestor := 1; secretIdentityRequestor := Some 2 |}.

Definition withoutSecret : TwitterApi :=
  {| requestor := 1; secretIdentityRequestor := None |}.

(** A request as [showStatus] builds it, and one as a follow call does. *)
Definition statusRequest (id : string) : QNetworkRequest :=
  setHeader
    (QNetworkRequest_of
       (setQuery (QUrl_of API_STATUSES_SHOW)
          [("tweet_mode", "extended"); ("include_entities", "true");
           ("trim_user", "false"); ("id", id); ("include_ext_alt_text", "true")]))
    ContentTypeHeader O2_MIME_TYPE_XFORM.

Definition retriedStatusRequest (id : string) : QNetworkRequest :=
  setRawHeader (statusRequest id) HEADER_NO_RECURSION "X".

Definition succeeded (body : string) : Completion :=
  {| c_error := NoError; c_errorString := ""; c_contentType := None; c_body := body |}.

(** Error 201 is [ContentAccessDenied], what a 403 answer gives. *)
Definition denied (body : string) : Completion :=
  {| c_error := 201%Z; c_errorString := "Error transferring - server replied: Forbidden";
     c_contentType := None; c_body := body |}.

Definition page (contentType body : string) : Completion :=
  {| c_error := NoError; c_errorString := ""; c_contentType := Some contentType;
     c_body := body |}.

(** The exchanges that the calls of the facade send on the sample
    platform. *)
Definition statusParameters (id : string) : list (string * string) :=
  [("tweet_mode", "extended"); ("include_entities", "true");
   ("trim_user", "false"); ("id", id); ("include_ext_alt_text", "true")].

Definition statusExchange (id : string) : Exchange :=
  {| sender := ViaRequestor 1; method := MethodGet; sent := statusRequest id;
     parameters := statusParameters id; postData := "";
     onError := SlotShowStatusError; onFinished := SlotShowStatusFinished |}.

Definition retriedStatusExchange (id : string) : Exchange :=
  {| sender := ViaRequestor 2; method := MethodGet; sent := retriedStatusRequest id;
     parameters := statusParameters id; postData := "";
     onError := SlotShowStatusError; onFinished := SlotShowStatusFinished |}.

Definition plainRequest (address : string) : QNetworkRequest :=
  setHeader (QNetworkRequest_of (QUrl_of address)) ContentTypeHeader O2_MIME_TYPE_XFORM.

Definition followExchange (screenName : string) : Exchange :=
  {| sender := ViaRequestor 1; method := MethodPost;
     sent := plainRequest API_FRIENDSHIPS_CREATE;
     parameters := [("tweet_mode", "extended"); ("screen_name", screenName)];
     postData := "tweet_mode=extended&screen_name=" +:+ screenName;
     onError := SlotFollowUserError; onFinished := SlotFollowUserFinished |}.

Definition unfollowExchange (screenName : string) : Exchange :=
  {| sender := ViaRequestor 1; method := MethodPost;
     sent := plainRequest API_FRIENDSHIPS_DESTROY;
     parameters := [("tweet_mode", "extended"); ("screen_name", screenName)];
     postData := "tweet_mode=extended&screen_name=" +:+ screenName;
     onError := SlotUnfollowUserError; onFinished := SlotUnfollowUserFinished |}.


Definition retweetsExchange : Exchange :=
  {| sender := ViaRequestor 1; method := MethodGet;
     sent := setHeader
               (QNetworkRequest_of
                  (setQuery (QUrl_of API_STATUSES_RETWEET_TIMELINE)
                     [("tweet_mode", "extended"); ("include_entities", "true");
                      ("trim_user", "false"); ("count", "10");
                      ("include_ext_alt_text", "true")]))
               ContentTypeHeader O2_MIME_TYPE_XFORM;
     parameters := [("tweet_mode", "extended"); ("include_entities", "true");
                    ("trim_user", "false"); ("count", "10");
                    ("include_ext_alt_text", "true")];
     postData := "";
     onError := SlotRetweetTimelineError; onFinished := SlotRetweetTimelineFinished |}.

Definition previewExchange (address : string) : Exchange :=
  {| sender := ViaManager; method := MethodGet;
     sent := setRawHeader
               (setRawHeader
                  (setRawHeader
                     (setRawHeader
                        (setHeader (setFollowRedirects (QNetworkRequest_of (QUrl_of address)) true)
                           UserAgentHeader
                           "Mozilla/5.0 (Wayland; SailfishOS) Piepmatz (Not Firefox/52.0)")
                        "Accept" "text/html,application/xhtml+xml")
                     "Accept-Charset" "utf-8")
                  "Connection" "close")
               "Cache-Control" "max-age=0";
     parameters := []; postData := "";
     onError := SlotGetOpenGraphError; onFinished := SlotGetOpenGraphFinished |}.

(** A page with an og:image tag and no og:title tag, and a page without
    tags. *)
Definition pageWithImage : string :=
  "<html><head><meta property=" +:+ Regex.quoted "og:image" +:+ " content="
  +:+ Regex.quoted "https://example.org/bird.png" +:+ "/></head></html>".

Definition pageWithoutTags : string := "<html><head></head></html>".

(** A transport under which both identities are blocked. *)
Definition alwaysBlocked (x : Exchange) : Completion := denied "blocked".

End Sample.

(** ** What a pattern matches

    The texts that a pattern matches, stated without the matcher: [Matches r
    s rest cap cap'] says that [r] matches a front part of [s] and leaves
    [rest], the capture being [cap] before and [cap'] after. *)

Module RegexSpec.

Import Regex.

Fixpoint allChars (cls : ascii -> bool) (s : string) : bool :=
  match s with
  | EmptyString => true
  | String a s' => cls a && allChars cls s'
  end.

Inductive Matches : Regex -> string -> string -> option string -> option string -> Prop :=
| MatchesLit (text rest : string) (cap : option string) :
    Matches (Lit text) (text +:+ rest) rest cap cap
| MatchesStar (cls : ascii -> bool) (taken rest : string) (cap : option string) :
    allChars cls taken = true ->
    Matches (Star cls) (taken +:+ rest) rest cap cap
| MatchesPlus (cls : ascii -> bool) (taken rest : string) (cap : option string) :
    allChars cls taken = true ->
    taken <> "" ->
    Matches (Plus cls) (taken +:+ rest) rest cap cap
| MatchesSeq (r1 r2 : Regex) (s mid rest : string) (cap cap1 cap2 : option string) :
    Matches r1 s mid cap cap1 ->
    Matches r2 mid rest cap1 cap2 ->
    Matches (Seq r1 r2) s rest cap cap2
| MatchesCap (r : Regex) (taken rest : string) (cap cap1 : option string) :
    Matches r (taken +:+ rest) rest cap cap1 ->
    Matches (Cap r) (taken +:+ rest) rest cap (Some taken).

(** A match somewhere in [s]: after [before], capturing [captured] and
    leaving [rest]. *)
Definition MatchesIn (r : Regex) (s before captured rest : string) : Prop :=
  exists (matched : string) (cap : option string),
    s = before +:+ matched
    /\ Matches r matched rest None cap
    /\ captured = default "" cap.

(** *** Vocabulary of the statements on the scraper *)

(** A non-empty run of white space, as the tag pattern reads it. *)
Definition isSpaceRun (ws : string) : Prop :=
  ws <> "" /\ allChars qchar_isSpace ws = true.

(** A non-empty value without a double quote. *)
Definition isTagValue (content : string) : Prop :=
  content <> "" /\ allChars (fun a => negb (char_in [dquote] a)) content = true.

(** The text of an Open Graph tag, from its opening to the quote that closes
    the value. *)
Definition openGraphTag (name ws1 ws2 content : string) : string :=
  "<meta" +:+ ws1 +:+ "property=" +:+ quoted ("og:" +:+ name) +:+ ws2
  +:+ "content=" +:+ quoted content.

(** A character that a charset name of the content type may hold: no white
    space, quote, comma or greater-than sign. *)
Definition charsetTokenChar (a : ascii) : bool :=
  negb (pcre_space a || char_in [dquote; squote; comma; greater] a).

End RegexSpec.

(** ** The facade on generic requests

    [genericRequest], [runRawRequest] and the generic handlers are the
    first functions of [src/twitterapi.cpp], whose calls do not use them yet.
    In the later state of the file, [unnamed/part_000], [showStatus] and
    [userTimeline] go through them, with the error handlers of before. *)

Module Refactored.

(** [TwitterApi::ParametersList] is declared in the header. The code
    default-constructs it, assigns to it with [operator[]], and reads it
    with [keys()] and [operator[]]. *)
Class Parameters : Type := {
  ParametersList : Type;
  noParameters : ParametersList;
  assign : ParametersList -> string -> string -> ParametersList;
  keys : ParametersList -> list string;
  valueOf : ParametersList -> string -> string
}.

(** The pointers to the signals of a result, [ApiResultMap] and
    [ApiResultList], and to an error signal, [ApiResultError]; none of them
    null. *)
Inductive ApiResult : Type :=
| ApiResultMap (successSignal : QVariantMap -> Signal)
| ApiResultList (successSignal : QVariantList -> Signal).

Abbreviation ApiResultError := (string -> Signal).

(** The member functions that the calls pass as handlers. The name
    [genericHandlerFinished] has two overloads, chosen by the type of the
    success signal. *)
Inductive ApiFinishedHandler : Type :=
| GenericHandlerFinished.

Inductive ApiFailureHandler : Type :=
| GenericHandlerFailure
| HandleShowStatusError
| HandleUserTimelineError.

(** What [runRawRequest] hands to the requestor. *)
Record RawRequest : Type := {
  usedRequestor : O1Requestor;
  isGet : bool;
  rawSent : QNetworkRequest;
  preparedParameters : list (string * string);
  rawPostData : string
}.

(** A reply as [genericRequest] returns it: the raw request and what the
    two connected closures have captured. *)
Record GenericExchange : Type := {
  raw : RawRequest;
  title : string;
  successSignal : ApiResult;
  errorSignal : ApiResultError;
  finishedHandler : option ApiFinishedHandler;
  errorHandler : option ApiFailureHandler
}.

(** What a call or a handler does, in order. *)
Inductive Action : Type :=
| Emitted (s : Signal)
| Requested (x : GenericExchange).

Definition emitted (w : list Action) : list Signal :=
  omap (fun a => match a with Emitted s => Some s | Requested _ => None end) w.

Definition requested (w : list Action) : list GenericExchange :=
  omap (fun a => match a with Requested x => Some x | Emitted _ => None end) w.

Section Calls.

Context `{Platform} `{Parameters}.
Variable api : TwitterApi.

Definition runRawRequest (apiCall : string) (isGetRequest : bool)
           (parameters : ParametersList) (includeQueryParameters : bool)
           (useSecretIdentity : bool) : RawRequest :=
  let url := QUrl_of apiCall in
  let url :=
    if includeQueryParameters then
      let urlQuery : QUrlQuery := [] in
      let urlQuery :=
        fold_left
          (fun (urlQuery : QUrlQuery) (key : string) =>
             UrlQuery.addQueryItem urlQuery key
               (toPercentEncoding (valueOf parameters key)))
          (keys parameters) urlQuery in
      setQuery url urlQuery
    else url in
  let request := QNetworkRequest_of url in
  let request := setHeader request ContentTypeHeader O2_MIME_TYPE_XFORM in
  let preparedParameters :=
    fold_left
      (fun (preparedParameters : list (string * string)) (key : string) =>
         preparedParameters ++ [(key, valueOf parameters key)])
      (keys parameters) [] in
  let usedRequestor :=
    match useSecretIdentity, secretIdentityRequestor api with
    | true, Some secret => secret
    | _, _ => requestor api
    end in
  if isGetRequest then
    {| usedRequestor := usedRequestor; isGet := true; rawSent := request;
       preparedParameters := preparedParameters; rawPostData := "" |}
  else
    let postData := createQueryParameters preparedParameters in
    {| usedRequestor := usedRequestor; isGet := false; rawSent := request;
       preparedParameters := preparedParameters; rawPostData := postData |}.

Definition genericRequest (apiCall title : string) (successSignal : ApiResult)
           (errorSignal : ApiResultError) (isGetRequest : bool)
           (parameters : ParametersList) (includeQueryParameters : bool)
           (finishedHandler : option ApiFinishedHandler)
           (errorHandler : option ApiFailureHandler)
           (useSecretIdentity : bool) : list Action :=
  let reply :=
    runRawRequest apiCall isGetRequest parameters includeQueryParameters
                  useSecretIdentity in
  [Requested {| raw := reply; title := title; successSignal := successSignal;
                errorSignal := errorSignal; finishedHandler := finishedHandler;
                errorHandler := errorHandler |}].

(** The overload of [genericHandlerFinished] for a map result. *)
Definition genericHandlerFinishedMap (title : string) (reply : QNetworkReply)
           (successSignal : QVariantMap -> Signal) (errorSignal : ApiResultError)
  : list Action :=
  if failed reply then []
  else
    let jsonDocument := fromJson (readAll reply) in
    match jsonDocument with
    | DocObject object => [Emitted (successSignal (QJson.toVariantMap object))]
    | _ => [Emitted (errorSignal DEFAULT_ERROR_MESSAGE)]
    end.

(** The overload of [genericHandlerFinished] for a list result. *)
Definition genericHandlerFinishedList (title : string) (reply : QNetworkReply)
           (successSignal : QVariantList -> Signal) (errorSignal : ApiResultError)
  : list Action :=
  if failed reply then []
  else
    let jsonDocument := fromJson (readAll reply) in
    match jsonDocument with
    | DocArray array => [Emitted (successSignal (QJson.toVariantList array))]
    | _ => [Emitted (errorSignal DEFAULT_ERROR_MESSAGE)]
    end.

Definition genericHandlerFailure (title : string) (reply : QNetworkReply)
           (errorCode : NetworkError) (errorSignal : ApiResultError) : list Action :=
  let parsedErrorResponse := parseErrorResponse (errorString reply) (readAll reply) in
  [Emitted (errorSignal (QVar.toString (QVar.value parsedErrorResponse "message")))].

Definition showStatus (statusId : string) (useSecretIdentity : bool) : list Action :=
  let sanitizedStatus := sanitizedStatus statusId in
  let params := noParameters in
  let params := assign params "tweet_mode" "extended" in
  let params := assign params "include_entities" "true" in
  let params := assign params "trim_user" "false" in
  let params := assign params "id" sanitizedStatus in
  let params := assign params "include_ext_alt_text" "true" in
  genericRequest API_STATUSES_SHOW "TwitterApi::showStatus"
                 (ApiResultMap showStatusSuccessful) showStatusError
                 true params true
                 (Some GenericHandlerFinished) (Some HandleShowStatusError)
                 useSecretIdentity.

Definition userTimeline (screenName : string) (useSecretIdentity : bool) : list Action :=
  let params := noParameters in
  let params := assign params "tweet_mode" "extended" in
  let params := assign params "count" "200" in
  let params := assign params "include_rts" "true" in
  let params := assign params "exclude_replies" "false" in
  let params := assign params "screen_name" screenName in
  let params := assign params "include_ext_alt_text" "true" in
  genericRequest API_STATUSES_USER_TIMELINE "TwitterApi::userTimeline"
                 (ApiResultList userTimelineSuccessful) userTimelineError
                 true params true
                 (Some GenericHandlerFinished) (Some HandleUserTimelineError)
                 useSecretIdentity.

Definition handleUserTimelineError (title : string) (reply : QNetworkReply)
           (errorCode : NetworkError) (errorSignal : ApiResultError) : list Action :=
  let parsedErrorResponse := parseErrorResponse (errorString reply) (readAll reply) in
  let urlQuery := urlQuery (url (request reply)) in
  if bool_decide (secretIdentityRequestor api <> None)
     && QVar.equalsString (QVar.value parsedErrorResponse "code") "136"
     && negb (hasRawHeader (request reply) HEADER_NO_RECURSION) then
    userTimeline (UrlQuery.queryItemValue urlQuery "screen_name") true
  else
    [Emitted (userTimelineError
                (QVar.toString (QVar.value parsedErrorResponse "message")))].

Definition handleShowStatusError (title : string) (reply : QNetworkReply)
           (errorCode : NetworkError) (errorSignal : ApiResultError) : list Action :=
  let parsedErrorResponse := parseErrorResponse (errorString reply) (readAll reply) in
  let urlQuery := urlQuery (url (request reply)) in
  if bool_decide (secretIdentityRequestor api <> None)
     && QVar.equalsString (QVar.value parsedErrorResponse "code") "136"
     && negb (hasRawHeader (request reply) HEADER_NO_RECURSION) then
    showStatus (UrlQuery.queryItemValue urlQuery "id") true
  else
    [Emitted (showStatusSuccessful
                (fakeTweetFor (UrlQuery.queryItemValue urlQuery "id")
                   (QVar.toString (QVar.value parsedErrorResponse "message"))))].

(** *** Completion of a generic exchange *)

Definition replyTo (x : GenericExchange) (c : Completion) : QNetworkReply :=
  {| request := rawSent (raw x); error := c_error c; errorString := c_errorString c;
     header_ContentType := c_contentType c; readAll := c_body c |}.

(** The closure connected to the [error] signal of the reply. *)
Definition onErrorOf (x : GenericExchange) (reply : QNetworkReply)
           (error : NetworkError) : list Action :=
  match errorHandler x with
  | None => []
  | Some GenericHandlerFailure =>
      genericHandlerFailure (title x) reply error (errorSignal x)
  | Some HandleShowStatusError =>
      handleShowStatusError (title x) reply error (errorSignal x)
  | Some HandleUserTimelineError =>
      handleUserTimelineError (title x) reply error (errorSignal x)
  end.

(** The closure connected to the [finished] signal of the reply. *)
Definition onFinishedOf (x : GenericExchange) (reply : QNetworkReply) : list Action :=
  match finishedHandler x, successSignal x with
  | None, _ => []
  | Some GenericHandlerFinished, ApiResultMap successSignal =>
      genericHandlerFinishedMap (title x) reply successSignal (errorSignal x)
  | Some GenericHandlerFinished, ApiResultList successSignal =>
      genericHandlerFinishedList (title x) reply successSignal (errorSignal x)
  end.

(** A reply that failed signals [error] and then [finished]; a reply that
    succeeded signals [finished] only. *)
Definition deliver (x : GenericExchange) (c : Completion) : list Action :=
  let reply := replyTo x c in
  if failed reply then onErrorOf x reply (error reply) ++ onFinishedOf x reply
  else onFinishedOf x reply.

(** *** The event loop *)

Record Loop : Type := {
  inFlight : list GenericExchange;
  issued : list GenericExchange;
  observed : list Signal
}.

Definition absorb (st : Loop) (w : list Action) : Loop :=
  {| inFlight := inFlight st ++ requested w;
     issued := issued st ++ requested w;
     observed := observed st ++ emitted w |}.

Inductive Outcome : Type :=
| Quiescent (st : Loop)
| OutOfFuel (st : Loop).

Fixpoint run (transport : GenericExchange -> Completion) (fuel : nat) (st : Loop)
  : Outcome :=
  match inFlight st with
  | [] => Quiescent st
  | x :: rest =>
      match fuel with
      | O => OutOfFuel st
      | S fuel' =>
          run transport fuel'
              (absorb {| inFlight := rest; issued := issued st;
                         observed := observed st |}
                      (deliver x (transport x)))
      end
  end.

(** A call on an idle facade, and then the event loop until nothing is in
    flight or the fuel is used up. *)
Definition callAndRun (transport : GenericExchange -> Completion) (fuel : nat)
           (m : list Action) : Outcome :=
  run transport fuel (absorb {| inFlight := []; issued := []; observed := [] |} m).

(** *** Vocabulary of the statements *)

(** An exchange that the error handler of the status or of the user timeline
    answers, and that carries no raw header. *)
Definition retrying (x : GenericExchange) : Prop :=
  (errorHandler x = Some HandleShowStatusError
   \/ errorHandler x = Some HandleUserTimelineError)
  /\ rawHeaders (rawSent (raw x)) = [].

(** A completion that reports the error code 136. *)
Definition blocks (c : Completion) : Prop :=
  c_error c <> NoError
  /\ QVar.value (parseErrorResponse (c_errorString c) (c_body c)) "code" = VString "136".

End Calls.

End Refactored.

(** ** Further sample data *)

Module FurtherSample.

Import Sample.

(** The exchange that [userTimeline] sends on the sample platform. *)
Definition timelineParameters (screenName : string) : list (string * string) :=
  [("tweet_mode", "extended"); ("count", "200"); ("include_rts", "true");
   ("exclude_replies", "false"); ("screen_name", screenName);
   ("include_ext_alt_text", "true")].

Definition timelineExchange (screenName : string) : Exchange :=
  {| sender := ViaRequestor 1; method := MethodGet;
     sent := setHeader
               (QNetworkRequest_of
                  (setQuery (QUrl_of API_STATUSES_USER_TIMELINE)
                     (timelineParameters screenName)))
               ContentTypeHeader O2_MIME_TYPE_XFORM;
     parameters := timelineParameters screenName; postData := "";
     onError := SlotUserTimelineError; onFinished := SlotUserTimelineFinished |}.

(** A transport that answers with a picture. *)
Definition servesPicture (x : Exchange) : Completion := page "image/png" "PNG".

(** The preview of the page with an og:image tag. *)
Definition previewWithImage (address : string) : QVariantMap :=
  <["title" := VString address]>
    (<["url" := VString address]>
       (<["image" := VString "https://example.org/bird.png"]> ∅)).

(** Parameters as a map with ordered keys: the items in the order of their
    keys, each key once. *)
Fixpoint assignOrdered (items : list (string * string)) (key value : string)
  : list (string * string) :=
  match items with
  | [] => [(key, value)]
  | (key', value') :: rest =>
      match String.compare key key' with
      | Lt => (key, value) :: items
      | Eq => (key, value) :: rest
      | Gt => (key', value') :: assignOrdered rest key value
      end
  end.

#[export] Instance sampleParameters : Refactored.Parameters := {|
  Refactored.ParametersList := list (string * string);
  Refactored.noParameters := [];
  Refactored.assign := assignOrdered;
  Refactored.keys := map fst;
  Refactored.valueOf := UrlQuery.queryItemValue
|}.

(** A transport of generic exchanges under which both identities are
    blocked. *)
Definition bothBlocked (x : Refactored.GenericExchange) : Completion := denied "blocked".

End FurtherSample.

(** ** Properties *)

Section Properties.

Context `{Platform}.

(** *** Auxiliary facts *)

Lemma hasRawHeader_setRawHeader (r : QNetworkRequest) (name v : string) :
  hasRawHeader (setRawHeader r name v) name = true.
Proof.
  unfold hasRawHeader, setRawHeader; simpl.
  rewrite existsb_app; simpl.
  rewrite String.eqb_refl. by rewrite orb_true_r.
Qed.

Lemma indexOf_lower_bound (c : ascii) (s : string) : (-1 <= QString.indexOf c s)%Z.
Proof.
  induction s as [|a s IH]; simpl; [lia|].
  destruct (Ascii.eqb a c); [lia|].
  destruct (Z.ltb_spec (QString.indexOf c s) 0); lia.
Qed.

(** The characters to the left of the first [c] hold no [c]. *)
Lemma indexOf_left (c : ascii) (s : string) :
  (0 <= QString.indexOf c s)%Z ->
  QString.indexOf c (QString.left (QString.indexOf c s) s) = (-1)%Z.
Proof.
  induction s as [|a s IH]; simpl; [lia|].
  destruct (Ascii.eqb a c) eqn:Hac; [reflexivity|].
  destruct (Z.ltb_spec (QString.indexOf c s) 0) as [Hneg|Hpos]; [lia|].
  intros _. unfold QString.left in *.
  pose proof (indexOf_lower_bound c s).
  destruct (Z.ltb_spec (QString.indexOf c s + 1) 0); [lia|].
  replace (Z.to_nat (QString.indexOf c s + 1)) with (S (Z.to_nat (QString.indexOf c s)))
    by lia.
  simpl. rewrite Hac.
  specialize (IH Hpos).
  destruct (Z.ltb_spec (QString.indexOf c s) 0); [lia|].
  rewrite IH. reflexivity.
Qed.

(** Sanitising a status id twice changes nothing more. *)
Lemma sanitizedStatus_idempotent (statusId : string) :
  sanitizedStatus (sanitizedStatus statusId) = sanitizedStatus statusId.
Proof.
  unfold sanitizedStatus.
  destruct (Z.leb_spec 0 (QString.indexOf "?" statusId)) as [Hq|Hq].
  - rewrite (indexOf_left _ _ Hq). reflexivity.
  - destruct (Z.leb_spec 0 (QString.indexOf "?" statusId)); [lia|reflexivity].
Qed.

Lemma failed_replyOf (x : Exchange) (c : Completion) :
  failed (replyOf x c) = negb (c_error c =? NoError)%Z.
Proof. reflexivity. Qed.

Lemma deliver_succeeded (api : TwitterApi) (x : Exchange) (c : Completion) :
  c_error c = NoError ->
  deliver api x c = invokeFinished (onFinished x) (replyOf x c).
Proof.
  intros Herr. unfold deliver. rewrite failed_replyOf, Herr. reflexivity.
Qed.

Lemma deliver_failed (api : TwitterApi) (x : Exchange) (c : Completion) :
  c_error c <> NoError ->
  deliver api x c
  = (invokeError api (onError x) (replyOf x c) ;;
     invokeFinished (onFinished x) (replyOf x c)).
Proof.
  intros Herr. unfold deliver. rewrite failed_replyOf.
  destruct (Z.eqb_spec (c_error c) NoError); [contradiction|reflexivity].
Qed.

(** Every [finished] slot returns at once when the reply failed. *)
Lemma finished_of_failed (slot : FinishedSlot) (reply : QNetworkReply) :
  failed reply = true -> invokeFinished slot reply = mret tt.
Proof.
  intros Hfailed. destruct slot; simpl;
    [unfold handleRetweetTimelineFinished | unfold handleShowStatusFinished
    | unfold handleUserTimelineFinished | unfold handleFollowUserFinished
    | unfold handleUnfollowUserFinished | unfold handleSearchTweetsFinished
    | unfold handleSearchUsersFinished | unfold handleGetOpenGraphFinished];
    rewrite Hfailed; reflexivity.
Qed.

Lemma bind_unit_r (m : Api unit) : (m ;; mret tt) = m.
Proof.
  destruct m as [|[] w]; [reflexivity|].
  unfold mbind, Api_bind, mret, Api_ret. by rewrite app_nil_r.
Qed.

(** A failed exchange runs its [error] slot, and nothing else. *)
Lemma deliver_failed_error (api : TwitterApi) (x : Exchange) (c : Completion) :
  c_error c <> NoError ->
  deliver api x c = invokeError api (onError x) (replyOf x c).
Proof.
  intros Herr. rewrite deliver_failed by assumption.
  rewrite finished_of_failed; [apply bind_unit_r|].
  rewrite failed_replyOf. by destruct (Z.eqb_spec (c_error c) NoError).
Qed.

(** *** The searches *)

(** C9: a tweet search or a user search with the empty query starts no
    network exchange and emits the empty list as its successful result within
    the call: the call leaves nothing in flight, and the event loop has nothing
    to do afterwards, whatever the transport and the fuel. *)
Theorem empty_search_skips_network (api : TwitterApi)
        (transport : Exchange -> Completion) (fuel : nat) :
  searchTweets api "" = Done tt [Emit (searchTweetsSuccessful [])]
  /\ searchUsers api "" = Done tt [Emit (searchUsersSuccessful [])]
  /\ callAndRun api transport fuel (searchTweets api "")
     = Quiescent {| inFlight := []; issued := [];
                    observed := [searchTweetsSuccessful []] |}
  /\ callAndRun api transport fuel (searchUsers api "")
     = Quiescent {| inFlight := []; issued := [];
                    observed := [searchUsersSuccessful []] |}.
Proof.
  repeat split; try reflexivity; destruct fuel; reflexivity.
Qed.

(** *** Follow and unfollow *)

Lemma following_forced (o : QJsonObject) (b : bool) :
  QJson.toVariantMap (<["following" := JBool b]> (delete "following" o)) !! "following"
  = Some (VBool b).
Proof.
  unfold QJson.toVariantMap. rewrite lookup_fmap, lookup_insert_eq. reflexivity.
Qed.

(** C8: when the answer to a follow call decodes to a JSON object, the
    object emitted with [followUserSuccessful] has the field following equal to
    true, whatever the answer held; for an unfollow call the field is false. *)
Theorem follow_state_corrected (api : TwitterApi) (x : Exchange) (c : Completion)
        (responseObject : QJsonObject) :
  c_error c = NoError ->
  fromJson (c_body c) = DocObject responseObject ->
  (onFinished x = SlotFollowUserFinished ->
   exists result : QVariantMap,
     deliver api x c = Done tt [Emit (followUserSuccessful result)]
     /\ result !! "following" = Some (VBool true))
  /\ (onFinished x = SlotUnfollowUserFinished ->
      exists result : QVariantMap,
        deliver api x c = Done tt [Emit (unfollowUserSuccessful result)]
        /\ result !! "following" = Some (VBool false)).
Proof.
  intros Herr Hdoc.
  assert (Hok : failed (replyOf x c) = false) by (rewrite failed_replyOf, Herr; reflexivity).
  split; intros Hslot; eexists; (split; [|apply following_forced]);
    rewrite deliver_succeeded by assumption; rewrite Hslot; simpl;
    [unfold handleFollowUserFinished | unfold handleUnfollowUserFinished];
    rewrite Hok; simpl; rewrite Hdoc; reflexivity.
Qed.

(** *** The error report *)

Lemma parseErrorResponse_last (errorText responseText : string)
      (object : QJsonObject) (earlier : QJsonArray) (lastEntry : QJsonValue) :
  fromJson responseText = DocObject object ->
  QJson.value object "errors" = JArray (earlier ++ [lastEntry]) ->
  exists rest : QVariantMap,
    parseErrorResponse errorText responseText
    = <["message" := VString (QJson.toString
          (QJson.value (QJson.toObject lastEntry) "message"))]>
        (<["code" := VString (QString.number
            (QJson.toInt (QJson.value (QJson.toObject lastEntry) "code")))]> rest).
Proof.
  intros Hdoc Herrors. unfold parseErrorResponse.
  rewrite Hdoc, Herrors. simpl. rewrite fold_left_app. simpl.
  eexists. reflexivity.
Qed.

Lemma parseErrorResponse_plain (errorText responseText : string) :
  (forall object : QJsonObject,
      fromJson responseText = DocObject object ->
      QJson.isArray (QJson.value object "errors") = false) ->
  parseErrorResponse errorText responseText = {["message" := VString errorText]}.
Proof.
  intros Hplain. unfold parseErrorResponse.
  destruct (fromJson responseText) as [| |object] eqn:Hdoc; try reflexivity.
  rewrite (Hplain object eq_refl). reflexivity.
Qed.

(** C10: when the body of a failed exchange is a JSON object whose errors
    array ends with [lastEntry] (after any earlier entries, so in particular
    when it has two or more entries), the report holds the code and the
    message of [lastEntry], and the decision to use the secret identity
    compares the code of [lastEntry] with 136. When the body is no JSON
    object with an errors array, the report holds the error string of the
    transport as its message and no code. *)
Theorem error_report_takes_last_entry (api : TwitterApi)
        (errorText responseText : string) :
  (forall (object : QJsonObject) (earlier : QJsonArray) (lastEntry : QJsonValue),
      fromJson responseText = DocObject object ->
      QJson.value object "errors" = JArray (earlier ++ [lastEntry]) ->
      let report := parseErrorResponse errorText responseText in
      let code := QString.number
                    (QJson.toInt (QJson.value (QJson.toObject lastEntry) "code")) in
      let message := QJson.toString
                       (QJson.value (QJson.toObject lastEntry) "message") in
      report !! "code" = Some (VString code)
      /\ report !! "message" = Some (VString message)
      /\ forall reply : QNetworkReply,
          errorString reply = errorText -> readAll reply = responseText ->
          handleShowStatusError api reply
          = if bool_decide (secretIdentityRequestor api <> None)
               && String.eqb code "136"
               && negb (hasRawHeader (request reply) HEADER_NO_RECURSION)
            then showStatus api
                   (UrlQuery.queryItemValue (urlQuery (url (request reply))) "id") true
            else emit (showStatusSuccessful
                         (fakeTweetFor
                            (UrlQuery.queryItemValue (urlQuery (url (request reply))) "id")
                            message)))
  /\ ((forall object : QJsonObject,
         fromJson responseText = DocObject object ->
         QJson.isArray (QJson.value object "errors") = false) ->
      let report := parseErrorResponse errorText responseText in
      report !! "message" = Some (VString errorText)
      /\ report !! "code" = None).
Proof.
  split.
  - intros object earlier lastEntry Hdoc Herrors report code message.
    destruct (parseErrorResponse_last errorText responseText _ _ _ Hdoc Herrors)
      as [rest Hreport].
    assert (Hcode : report !! "code" = Some (VString code)).
    { subst report. rewrite Hreport.
      rewrite lookup_insert_ne by discriminate. apply lookup_insert_eq. }
    assert (Hmessage : report !! "message" = Some (VString message)).
    { subst report. rewrite Hreport. apply lookup_insert_eq. }
    repeat split; [exact Hcode | exact Hmessage |].
    intros reply Htext Hbody. unfold handleShowStatusError.
    rewrite Htext, Hbody. fold report.
    unfold QVar.value. rewrite Hcode, Hmessage. reflexivity.
  - intros Hplain report. subst report.
    rewrite (parseErrorResponse_plain _ _ Hplain).
    split; [apply lookup_singleton_eq | reflexivity].
Qed.

(** *** The single status: dispatch *)

(** What [showStatus] sends: one exchange, connected to the status slots,
    asking for the sanitised id; it carries the no-recursion header and goes
    through the secret identity exactly when the secret identity was asked for
    and exists. *)
Lemma showStatus_exchange (api : TwitterApi) (statusId : string) (useSecretIdentity : bool) :
  exists x : Exchange,
    showStatus api statusId useSecretIdentity = Done tt [Send x]
    /\ onError x = SlotShowStatusError
    /\ onFinished x = SlotShowStatusFinished
    /\ UrlQuery.queryItemValue (urlQuery (url (sent x))) "id" = sanitizedStatus statusId
    /\ match useSecretIdentity, secretIdentityRequestor api with
       | true, Some secret =>
           sender x = ViaRequestor secret
           /\ hasRawHeader (sent x) HEADER_NO_RECURSION = true
       | _, _ =>
           sender x = ViaRequestor (requestor api)
           /\ hasRawHeader (sent x) HEADER_NO_RECURSION = false
       end.
Proof.
  unfold showStatus.
  destruct useSecretIdentity, (secretIdentityRequestor api) as [secret|];
    eexists; (split; [reflexivity|]); simpl; repeat split; try reflexivity.
  apply hasRawHeader_setRawHeader.
Qed.

Lemma userTimeline_exchange (api : TwitterApi) (screenName : string) (useSecretIdentity : bool) :
  exists x : Exchange,
    userTimeline api screenName useSecretIdentity = Done tt [Send x]
    /\ onError x = SlotUserTimelineError
    /\ onFinished x = SlotUserTimelineFinished
    /\ UrlQuery.queryItemValue (urlQuery (url (sent x))) "screen_name" = screenName
    /\ match useSecretIdentity, secretIdentityRequestor api with
       | true, Some secret =>
           sender x = ViaRequestor secret
           /\ hasRawHeader (sent x) HEADER_NO_RECURSION = true
       | _, _ =>
           sender x = ViaRequestor (requestor api)
           /\ hasRawHeader (sent x) HEADER_NO_RECURSION = false
       end.
Proof.
  unfold userTimeline.
  destruct useSecretIdentity, (secretIdentityRequestor api) as [secret|];
    eexists; (split; [reflexivity|]); simpl; repeat split; try reflexivity.
  apply hasRawHeader_setRawHeader.
Qed.

(** *** The single status: the placeholder *)

Lemma status_placeholder (api : TwitterApi) (x : Exchange) (c : Completion) :
  onError x = SlotShowStatusError ->
  c_error c <> NoError ->
  secretIdentityRequestor api = None
  \/ hasRawHeader (sent x) HEADER_NO_RECURSION = true
  \/ QVar.equalsString
       (QVar.value (parseErrorResponse (c_errorString c) (c_body c)) "code") "136" = false ->
  deliver api x c
  = Done tt [Emit (showStatusSuccessful (fakeTweetFor (requestedId x) (reportedMessage c)))].
Proof.
  intros Hslot Herr Hwhy.
  rewrite deliver_failed_error by assumption. rewrite Hslot. simpl.
  unfold handleShowStatusError. simpl.
  destruct Hwhy as [Hnone | [Hmarked | Hcode]].
  - rewrite Hnone. rewrite bool_decide_eq_false_2 by (intros Hne; by apply Hne).
    reflexivity.
  - rewrite Hmarked. rewrite andb_false_r. reflexivity.
  - rewrite Hcode. rewrite andb_false_r. reflexivity.
Qed.



(** *** The single status: the retry *)

Lemma status_finished_one_outcome (reply : QNetworkReply) :
  failed reply = false ->
  exists outcome : Signal, handleShowStatusFinished reply = Done tt [Emit outcome].
Proof.
  intros Hok. unfold handleShowStatusFinished. rewrite Hok.
  destruct (fromJson (readAll reply)); eexists; reflexivity.
Qed.

(** An exchange that carries the no-recursion header ends with one signal
    and sends nothing, however it completes. *)
Lemma marked_status_one_outcome (api : TwitterApi) (x : Exchange) (c : Completion) :
  onError x = SlotShowStatusError ->
  onFinished x = SlotShowStatusFinished ->
  hasRawHeader (sent x) HEADER_NO_RECURSION = true ->
  exists outcome : Signal, deliver api x c = Done tt [Emit outcome].
Proof.
  intros Herror Hfinished Hmarked.
  destruct (Z.eq_dec (c_error c) NoError) as [Hok|Hfailed].
  - rewrite deliver_succeeded by assumption. rewrite Hfinished. simpl.
    apply status_finished_one_outcome. rewrite failed_replyOf, Hok. reflexivity.
  - eexists. apply status_placeholder; auto.
Qed.

Lemma status_retried (api : TwitterApi) (x : Exchange) (c : Completion) :
  onError x = SlotShowStatusError ->
  c_error c <> NoError ->
  secretIdentityRequestor api <> None ->
  hasRawHeader (sent x) HEADER_NO_RECURSION = false ->
  QVar.equalsString
    (QVar.value (parseErrorResponse (c_errorString c) (c_body c)) "code") "136" = true ->
  deliver api x c = showStatus api (requestedId x) true.
Proof.
  intros Hslot Herr Hsecret Hplain Hcode.
  rewrite deliver_failed_error by assumption. rewrite Hslot. simpl.
  unfold handleShowStatusError. simpl.
  rewrite Hplain, Hcode. rewrite bool_decide_eq_true_2 by assumption. reflexivity.
Qed.

Lemma run_step (api : TwitterApi) (transport : Exchange -> Completion) (fuel : nat)
      (st : Loop) (x : Exchange) (rest : list Exchange) (w : list Effect) :
  inFlight st = x :: rest ->
  deliver api x (transport x) = Done tt w ->
  run api transport (S fuel) st
  = run api transport fuel
        (absorb {| inFlight := rest; issued := issued st; observed := observed st |} w).
Proof.
  intros Hflight Hdeliver. simpl. rewrite Hflight, Hdeliver. reflexivity.
Qed.

Lemma run_quiescent (api : TwitterApi) (transport : Exchange -> Completion) (fuel : nat)
      (st : Loop) :
  inFlight st = [] -> run api transport fuel st = Quiescent st.
Proof. intros Hflight. destruct fuel; simpl; rewrite Hflight; reflexivity. Qed.

(** C1: let a single-status exchange, sent without the no-recursion header
    while a secret identity is configured, fail with the error code 136. Then
    its completion emits no signal and sends exactly one exchange, through the
    secret identity, with the no-recursion header, connected to the same
    slots and asking for the same id. However that retried exchange
    completes, it ends with exactly one signal and sends nothing; and the
    whole run of a [showStatus] call whose first exchange completes this way
    issues these two exchanges and lets the caller observe that one signal
    only. *)
Theorem blocked_status_retried_once (api : TwitterApi) (secret : O1Requestor)
        (statusId : string) (x : Exchange) (c : Completion) :
  secretIdentityRequestor api = Some secret ->
  showStatus api statusId false = Done tt [Send x] ->
  c_error c <> NoError ->
  QVar.value (parseErrorResponse (c_errorString c) (c_body c)) "code" = VString "136" ->
  exists retried : Exchange,
    deliver api x c = Done tt [Send retried]
    /\ sender retried = ViaRequestor secret
    /\ hasRawHeader (sent retried) HEADER_NO_RECURSION = true
    /\ onError retried = SlotShowStatusError
    /\ onFinished retried = SlotShowStatusFinished
    /\ requestedId retried = requestedId x
    /\ (forall c' : Completion,
          exists outcome : Signal, deliver api retried c' = Done tt [Emit outcome])
    /\ (forall transport : Exchange -> Completion,
          transport x = c ->
          exists outcome : Signal,
            deliver api retried (transport retried) = Done tt [Emit outcome]
            /\ callAndRun api transport 2 (showStatus api statusId false)
               = Quiescent {| inFlight := []; issued := [x; retried];
                              observed := [outcome] |}).
Proof.
  intros Hsecret Hsent Herr Hcode.
  destruct (showStatus_exchange api statusId false)
    as (x0 & Hx0 & Herror & Hfinished & Hid & Hsender & Hplain).
  rewrite Hsent in Hx0. injection Hx0 as <-.
  destruct (showStatus_exchange api (requestedId x) true)
    as (retried & Hretried & Herror' & Hfinished' & Hid' & Hmarked).
  rewrite Hsecret in Hmarked. destruct Hmarked as [Hsender' Hmarked].
  assert (Hdeliver : deliver api x c = Done tt [Send retried]).
  { rewrite <- Hretried. apply status_retried; try assumption.
    - rewrite Hsecret. discriminate.
    - rewrite Hcode. reflexivity. }
  assert (Hone : forall c', exists outcome, deliver api retried c' = Done tt [Emit outcome]).
  { intros c'. by apply marked_status_one_outcome. }
  exists retried. repeat split; try assumption.
  - unfold requestedId at 1. rewrite Hid'. unfold requestedId. rewrite Hid.
    apply sanitizedStatus_idempotent.
  - intros transport Htransport.
    destruct (Hone (transport retried)) as [outcome Houtcome].
    exists outcome. split; [assumption|].
    unfold callAndRun. rewrite Hsent. unfold call.
    erewrite run_step; [| reflexivity | rewrite Htransport; exact Hdeliver].
    erewrite run_step; [| reflexivity | exact Houtcome].
    apply run_quiescent. reflexivity.
Qed.

(** *** The user timeline *)

Lemma timeline_error_surfaced (api : TwitterApi) (x : Exchange) (c : Completion) :
  onError x = SlotUserTimelineError ->
  c_error c <> NoError ->
  secretIdentityRequestor api = None
  \/ hasRawHeader (sent x) HEADER_NO_RECURSION = true
  \/ QVar.equalsString
       (QVar.value (parseErrorResponse (c_errorString c) (c_body c)) "code") "136" = false ->
  deliver api x c = Done tt [Emit (userTimelineError (reportedMessage c))].
Proof.
  intros Hslot Herr Hwhy.
  rewrite deliver_failed_error by assumption. rewrite Hslot. simpl.
  unfold handleUserTimelineError. simpl.
  destruct Hwhy as [Hnone | [Hmarked | Hcode]].
  - rewrite Hnone. rewrite bool_decide_eq_false_2 by (intros Hne; by apply Hne).
    reflexivity.
  - rewrite Hmarked. rewrite andb_false_r. reflexivity.
  - rewrite Hcode. rewrite andb_false_r. reflexivity.
Qed.

Lemma timeline_retried (api : TwitterApi) (x : Exchange) (c : Completion) :
  onError x = SlotUserTimelineError ->
  c_error c <> NoError ->
  secretIdentityRequestor api <> None ->
  hasRawHeader (sent x) HEADER_NO_RECURSION = false ->
  QVar.equalsString
    (QVar.value (parseErrorResponse (c_errorString c) (c_body c)) "code") "136" = true ->
  deliver api x c
  = userTimeline api (UrlQuery.queryItemValue (urlQuery (url (sent x))) "screen_name") true.
Proof.
  intros Hslot Herr Hsecret Hplain Hcode.
  rewrite deliver_failed_error by assumption. rewrite Hslot. simpl.
  unfold handleUserTimelineError. simpl.
  rewrite Hplain, Hcode. rewrite bool_decide_eq_true_2 by assumption. reflexivity.
Qed.

Lemma timeline_finished_one_outcome (reply : QNetworkReply) :
  failed reply = false ->
  exists outcome : Signal, handleUserTimelineFinished reply = Done tt [Emit outcome].
Proof.
  intros Hok. unfold handleUserTimelineFinished. rewrite Hok.
  destruct (fromJson (readAll reply)); eexists; reflexivity.
Qed.

Lemma marked_timeline_one_outcome (api : TwitterApi) (x : Exchange) (c : Completion) :
  onError x = SlotUserTimelineError ->
  onFinished x = SlotUserTimelineFinished ->
  hasRawHeader (sent x) HEADER_NO_RECURSION = true ->
  exists outcome : Signal, deliver api x c = Done tt [Emit outcome].
Proof.
  intros Herror Hfinished Hmarked.
  destruct (Z.eq_dec (c_error c) NoError) as [Hok|Hfailed].
  - rewrite deliver_succeeded by assumption. rewrite Hfinished. simpl.
    apply timeline_finished_one_outcome. rewrite failed_replyOf, Hok. reflexivity.
  - eexists. apply timeline_error_surfaced; auto.
Qed.

(** *** Bounded retry *)

(** Nothing is in flight any more: the run is over, and the exchanges issued
    and the signals observed are counted. *)
Ltac run_is_over :=
  eexists; split; [apply run_quiescent; reflexivity|];
  simpl; repeat split; lia.

(** A [showStatus] call runs to quiescence within two completions, with at
    most two exchanges and exactly one signal. *)
Lemma status_run_bounded (api : TwitterApi) (transport : Exchange -> Completion)
      (statusId : string) (useSecretIdentity : bool) :
  exists st : Loop,
    callAndRun api transport 2 (showStatus api statusId useSecretIdentity) = Quiescent st
    /\ inFlight st = []
    /\ length (issued st) <= 2
    /\ length (observed st) = 1.
Proof.
  destruct (showStatus_exchange api statusId useSecretIdentity)
    as (x & Hx & Herror & Hfinished & _ & _).
  unfold callAndRun. rewrite Hx. unfold call.
  destruct (Z.eq_dec (c_error (transport x)) NoError) as [Hok|Hfailed].
  { destruct (status_finished_one_outcome (replyOf x (transport x))) as [outcome Houtcome].
    { rewrite failed_replyOf, Hok. reflexivity. }
    erewrite run_step;
      [| reflexivity
       | rewrite deliver_succeeded by assumption; rewrite Hfinished; exact Houtcome].
    run_is_over. }
  destruct (secretIdentityRequestor api) as [secret|] eqn:Hsecret;
    [destruct (hasRawHeader (sent x) HEADER_NO_RECURSION) eqn:Hmarked;
     [|destruct (QVar.equalsString
                   (QVar.value (parseErrorResponse (c_errorString (transport x))
                                  (c_body (transport x))) "code") "136") eqn:Hcode]|].
  - erewrite run_step; [| reflexivity | apply status_placeholder; auto].
    run_is_over.
  - destruct (showStatus_exchange api (requestedId x) true)
      as (retried & Hretried & Herror' & Hfinished' & _ & Hmarked').
    rewrite Hsecret in Hmarked'. destruct Hmarked' as [_ Hmarked'].
    destruct (marked_status_one_outcome api retried (transport retried))
      as [outcome Houtcome]; try assumption.
    erewrite run_step;
      [| reflexivity
       | rewrite status_retried; [exact Hretried | auto ..]; rewrite Hsecret; discriminate].
    erewrite run_step; [| reflexivity | exact Houtcome].
    run_is_over.
  - erewrite run_step; [| reflexivity | apply status_placeholder; auto].
    run_is_over.
  - erewrite run_step; [| reflexivity | apply status_placeholder; auto].
    run_is_over.
Qed.

Lemma timeline_run_bounded (api : TwitterApi) (transport : Exchange -> Completion)
      (screenName : string) (useSecretIdentity : bool) :
  exists st : Loop,
    callAndRun api transport 2 (userTimeline api screenName useSecretIdentity) = Quiescent st
    /\ inFlight st = []
    /\ length (issued st) <= 2
    /\ length (observed st) = 1.
Proof.
  destruct (userTimeline_exchange api screenName useSecretIdentity)
    as (x & Hx & Herror & Hfinished & _ & _).
  unfold callAndRun. rewrite Hx. unfold call.
  destruct (Z.eq_dec (c_error (transport x)) NoError) as [Hok|Hfailed].
  { destruct (timeline_finished_one_outcome (replyOf x (transport x))) as [outcome Houtcome].
    { rewrite failed_replyOf, Hok. reflexivity. }
    erewrite run_step;
      [| reflexivity
       | rewrite deliver_succeeded by assumption; rewrite Hfinished; exact Houtcome].
    run_is_over. }
  destruct (secretIdentityRequestor api) as [secret|] eqn:Hsecret;
    [destruct (hasRawHeader (sent x) HEADER_NO_RECURSION) eqn:Hmarked;
     [|destruct (QVar.equalsString
                   (QVar.value (parseErrorResponse (c_errorString (transport x))
                                  (c_body (transport x))) "code") "136") eqn:Hcode]|].
  - erewrite run_step; [| reflexivity | apply timeline_error_surfaced; auto].
    run_is_over.
  - destruct (userTimeline_exchange api
                (UrlQuery.queryItemValue (urlQuery (url (sent x))) "screen_name") true)
      as (retried & Hretried & Herror' & Hfinished' & _ & Hmarked').
    rewrite Hsecret in Hmarked'. destruct Hmarked' as [_ Hmarked'].
    destruct (marked_timeline_one_outcome api retried (transport retried))
      as [outcome Houtcome]; try assumption.
    erewrite run_step;
      [| reflexivity
       | rewrite timeline_retried; [exact Hretried | auto ..]; rewrite Hsecret; discriminate].
    erewrite run_step; [| reflexivity | exact Houtcome].
    run_is_over.
  - erewrite run_step; [| reflexivity | apply timeline_error_surfaced; auto].
    run_is_over.
  - erewrite run_step; [| reflexivity | apply timeline_error_surfaced; auto].
    run_is_over.
Qed.

(** C2: an exchange that carries the no-recursion header and fails is never
    sent again: a single-status exchange ends with the placeholder tweet, a
    user-timeline exchange with [userTimelineError] and the message of the
    error report, and in both cases nothing is sent. The header is on every
    exchange that [showStatus] and [userTimeline] send through the secret
    identity, so a call of either runs to quiescence within two completions,
    with at most two exchanges (the original and one retry) and exactly one
    signal. *)
Theorem fallback_attempt_never_retried (api : TwitterApi) (x : Exchange) (c : Completion)
        (transport : Exchange -> Completion) :
  hasRawHeader (sent x) HEADER_NO_RECURSION = true ->
  c_error c <> NoError ->
  (onError x = SlotShowStatusError ->
   deliver api x c
   = Done tt [Emit (showStatusSuccessful
                      (fakeTweetFor (requestedId x) (reportedMessage c)))])
  /\ (onError x = SlotUserTimelineError ->
      deliver api x c = Done tt [Emit (userTimelineError (reportedMessage c))])
  /\ (forall (secret : O1Requestor) (target : string),
         secretIdentityRequestor api = Some secret ->
         exists status timeline : Exchange,
           showStatus api target true = Done tt [Send status]
           /\ sender status = ViaRequestor secret
           /\ hasRawHeader (sent status) HEADER_NO_RECURSION = true
           /\ userTimeline api target true = Done tt [Send timeline]
           /\ sender timeline = ViaRequestor secret
           /\ hasRawHeader (sent timeline) HEADER_NO_RECURSION = true)
  /\ (forall (target : string) (useSecretIdentity : bool),
         exists st : Loop,
           callAndRun api transport 2 (showStatus api target useSecretIdentity)
           = Quiescent st
           /\ inFlight st = []
           /\ length (issued st) <= 2
           /\ length (observed st) = 1)
  /\ (forall (target : string) (useSecretIdentity : bool),
         exists st : Loop,
           callAndRun api transport 2 (userTimeline api target useSecretIdentity)
           = Quiescent st
           /\ inFlight st = []
           /\ length (issued st) <= 2
           /\ length (observed st) = 1).
Proof.
  intros Hmarked Herr.
  split; [intros Hslot; apply status_placeholder; auto|].
  split; [intros Hslot; apply timeline_error_surfaced; auto|].
  split.
  { intros secret target Hsecret.
    destruct (showStatus_exchange api target true) as (status & Hs & _ & _ & _ & Hs').
    destruct (userTimeline_exchange api target true) as (timeline & Ht & _ & _ & _ & Ht').
    rewrite Hsecret in Hs', Ht'. destruct Hs', Ht'.
    exists status, timeline. repeat split; assumption. }
  split; intros target useSecretIdentity;
    [apply status_run_bounded | apply timeline_run_bounded].
Qed.

(** *** The retweet timeline *)

(** The [error] slot of the retweet timeline emits the error signal of the
    mentions timeline. *)
Lemma retweet_timeline_error_signal (api : TwitterApi) (x : Exchange) (c : Completion) :
  onError x = SlotRetweetTimelineError ->
  c_error c <> NoError ->
  deliver api x c = Done tt [Emit (mentionsTimelineError (reportedMessage c))].
Proof.
  intros Hslot Herr.
  rewrite deliver_failed_error by assumption. rewrite Hslot. reflexivity.
Qed.

(** The generic failure handler, given the error signal of the retweet
    timeline as the refactored [retweetTimeline] gives it, emits that one. *)
Lemma generic_failure_own_signal (errorSignal : string -> Signal) (x : Exchange)
      (c : Completion) :
  genericHandlerFailure errorSignal (replyOf x c)
  = Done tt [Emit (errorSignal (reportedMessage c))].
Proof. reflexivity. Qed.

(** *** Search de-duplication *)

Lemma underlyingId_normalized (entry : QJsonValue) :
  underlyingId (normalized entry) = underlyingId entry.
Proof. reflexivity. Qed.

Lemma removeDuplicateStep_cases (found : list string) (results : QJsonArray)
      (entry : QJsonValue) :
  removeDuplicateStep (found, results) entry
  = if bool_decide (underlyingId entry ∈ found) then (found, results)
    else (found ++ [underlyingId entry], results ++ [normalized entry]).
Proof.
  unfold removeDuplicateStep, underlyingId, normalized.
  by destruct (bool_decide _).
Qed.

(** The invariant of the loop: the ids found are those of the results, they
    are the ids met so far, each once. *)
Lemma removeDuplicate_invariant (original : QJsonArray) :
  let state := fold_left removeDuplicateStep original ([], []) in
  fst state = map underlyingId (snd state)
  /\ (forall id : string, id ∈ fst state <-> id ∈ map underlyingId original)
  /\ NoDup (fst state)
  /\ sublist (snd state) (map normalized original).
Proof.
  induction original as [|entry original IH] using rev_ind; simpl.
  { repeat split; try done. constructor. }
  rewrite fold_left_app. cbn [fold_left].
  destruct (fold_left removeDuplicateStep original ([], [])) as [found results].
  cbn [fst snd] in IH. destruct IH as (Hids & Hmet & Hnodup & Hsub).
  rewrite removeDuplicateStep_cases.
  rewrite !map_app. cbn [map].
  destruct (bool_decide_reflect (underlyingId entry ∈ found)) as [Hin|Hnotin]; simpl.
  - repeat split; try assumption.
    + intros Hid. apply elem_of_app. left. by apply Hmet.
    + intros [Hid|Hid]%elem_of_app; [by apply Hmet|].
      apply list_elem_of_singleton in Hid. by subst.
    + by apply sublist_inserts_r.
  - repeat split.
    + rewrite map_app. simpl. by rewrite Hids, underlyingId_normalized.
    + intros [Hid|Hid]%elem_of_app; apply elem_of_app; [left; by apply Hmet|by right].
    + intros [Hid|Hid]%elem_of_app; apply elem_of_app; [left; by apply Hmet|by right].
    + apply NoDup_app. repeat split; [assumption | | apply NoDup_singleton].
      intros id Hid Hid'. apply list_elem_of_singleton in Hid'. by subst.
    + by apply sublist_app.
Qed.

(** The loop, one entry later. *)
Lemma removeDuplicateTweets_snoc (original : QJsonArray) (entry : QJsonValue) :
  removeDuplicateTweets (original ++ [entry])
  = removeDuplicateTweets original
    ++ (if bool_decide (underlyingId entry ∈ map underlyingId original) then []
        else [normalized entry]).
Proof.
  unfold removeDuplicateTweets. rewrite fold_left_app. cbn [fold_left].
  pose proof (removeDuplicate_invariant original) as (_ & Hmet & _ & _).
  destruct (fold_left removeDuplicateStep original ([], [])) as [found results].
  cbn [fst snd] in *. rewrite removeDuplicateStep_cases.
  destruct (bool_decide_reflect (underlyingId entry ∈ found)) as [Hin|Hnotin];
    destruct (bool_decide_reflect (underlyingId entry ∈ map underlyingId original))
    as [Hin'|Hnotin']; simpl; try reflexivity.
  - by rewrite app_nil_r.
  - exfalso. by apply Hnotin', Hmet.
  - exfalso. by apply Hnotin, Hmet.
Qed.



(** *** The Open Graph scraper *)



Lemma insertCaptured_lookup (regex : Regex.Regex) (document key : string)
      (data : QVariantMap) (other : string) :
  insertCaptured regex document key data !! other
  = match Regex.search regex document with
    | Some found => if decide (key = other) then Some (VString (Regex.captured found))
                    else data !! other
    | None => data !! other
    end.
Proof.
  unfold insertCaptured. destruct (Regex.search regex document); [|reflexivity].
  apply lookup_insert.
Qed.




End Properties.

(** ** The statements on the sample data *)

Section Samples.

Import Sample.

Example showStatus_sends_statusExchange :
  showStatus withSecret "20?s=21" false = Done tt [Send (statusExchange "20")].
Proof. reflexivity. Qed.

Example getOpenGraph_sends_previewExchange :
  getOpenGraph "https://example.org/" = Done tt [Send (previewExchange "https://example.org/")].
Proof. reflexivity. Qed.

Example deliver_blocked_status :
  deliver withSecret (statusExchange "20") (denied "blocked")
  = Done tt [Send (retriedStatusExchange "20")].
Proof. vm_compute. reflexivity. Qed.

(** C7: the retweet-timeline exchange that [retweetTimeline] sends fails
    with an error body; the message of the error report is emitted with
    [mentionsTimelineError], the error signal of the mentions timeline, and
    [retweetTimelineError] is not emitted. The [finished] slot of the same
    exchange, on an answer that is no JSON array, does emit
    [retweetTimelineError]. *)
Theorem retweet_timeline_error_misrouted :
  retweetTimeline withSecret = Done tt [Send retweetsExchange]
  /\ deliver withSecret retweetsExchange (denied "blocked")
     = Done tt [Emit (mentionsTimelineError "You have been blocked")]
  /\ deliver withSecret retweetsExchange (succeeded "user")
     = Done tt [Emit (retweetTimelineError
                        "Piepmatz couldn't understand Twitter's response!")].
Proof.
  split; [reflexivity|]. split.
  - rewrite (retweet_timeline_error_signal withSecret retweetsExchange (denied "blocked"))
      by (reflexivity || discriminate).
    reflexivity.
  - reflexivity.
Qed.

Lemma blocked_status_retried_once_witness :
  secretIdentityRequestor withSecret = Some 2
  /\ showStatus withSecret "20?s=21" false = Done tt [Send (statusExchange "20")]
  /\ c_error (denied "blocked") <> NoError
  /\ exists retried : Exchange,
       deliver withSecret (statusExchange "20") (denied "blocked") = Done tt [Send retried]
       /\ sender retried = ViaRequestor 2
       /\ hasRawHeader (sent retried) HEADER_NO_RECURSION = true
       /\ requestedId retried = requestedId (statusExchange "20").
Proof.
  split; [reflexivity|]. split; [reflexivity|]. split; [discriminate|].
  destruct (blocked_status_retried_once (H := samplePlatform) withSecret 2 "20?s=21" (statusExchange "20")
              (denied "blocked") eq_refl eq_refl ltac:(discriminate) eq_refl)
    as (retried & Hdeliver & Hsender & Hmarked & _ & _ & Hid & _).
  exists retried. repeat split; assumption.
Defined.

Lemma fallback_attempt_never_retried_witness :
  hasRawHeader (sent (retriedStatusExchange "20")) HEADER_NO_RECURSION = true
  /\ c_error (denied "blocked") <> NoError
  /\ deliver withSecret (retriedStatusExchange "20") (denied "blocked")
     = Done tt [Emit (showStatusSuccessful
                        (fakeTweetFor (requestedId (retriedStatusExchange "20"))
                           (reportedMessage (denied "blocked"))))]
  /\ exists st : Loop,
       callAndRun withSecret alwaysBlocked 2 (showStatus withSecret "20" false)
       = Quiescent st
       /\ length (issued st) <= 2
       /\ length (observed st) = 1.
Proof.
  split; [reflexivity|]. split; [discriminate|].
  destruct (fallback_attempt_never_retried (H := samplePlatform) withSecret (retriedStatusExchange "20")
              (denied "blocked") alwaysBlocked ltac:(reflexivity) ltac:(discriminate))
    as (Hstatus & _ & _ & Hbound & _).
  split; [exact (Hstatus eq_refl)|].
  destruct (Hbound "20" false) as (st & Hrun & _ & Hissued & Hobserved).
  exists st. repeat split; assumption.
Defined.



Example removeDuplicateTweets_sample :
  removeDuplicateTweets [retweet "5" "1"; tweet "2"; tweet "1"; retweet "7" "2"]
  = [retweet "5" "1"; tweet "2"].
Proof. vm_compute. reflexivity. Qed.



Lemma follow_state_corrected_witness :
  c_error (succeeded "user") = NoError
  /\ fromJson (c_body (succeeded "user"))
     = DocObject (<["screen_name" := JString "piepmatz"]>
                  (<["following" := JBool false]> ∅))
  /\ onFinished (followExchange "piepmatz") = SlotFollowUserFinished
  /\ exists result : QVariantMap,
       deliver withSecret (followExchange "piepmatz") (succeeded "user")
       = Done tt [Emit (followUserSuccessful result)]
       /\ result !! "following" = Some (VBool true).
Proof.
  split; [reflexivity|]. split; [reflexivity|]. split; [reflexivity|].
  exact (proj1 (follow_state_corrected (H := samplePlatform) withSecret (followExchange "piepmatz")
                  (succeeded "user") _ eq_refl eq_refl) eq_refl).
Defined.

Lemma error_report_takes_last_entry_witness :
  fromJson "blocked" = DocObject (<["errors" := JArray [notFoundError; blockedError]]> ∅)
  /\ parseErrorResponse "Forbidden" "blocked" !! "code" = Some (VString "136")
  /\ parseErrorResponse "Forbidden" "blocked" !! "message"
     = Some (VString "You have been blocked")
  /\ fromJson "no json" = DocNull
  /\ parseErrorResponse "Forbidden" "no json" !! "message" = Some (VString "Forbidden")
  /\ parseErrorResponse "Forbidden" "no json" !! "code" = None.
Proof.
  split; [reflexivity|].
  destruct (proj1 (error_report_takes_last_entry (H := samplePlatform) withSecret "Forbidden" "blocked")
              _ [notFoundError] blockedError eq_refl eq_refl)
    as (Hcode & Hmessage & _).
  split; [exact Hcode|]. split; [exact Hmessage|].
  split; [reflexivity|].
  apply (proj2 (error_report_takes_last_entry (H := samplePlatform) withSecret "Forbidden" "no json")).
  intros object Hdoc. discriminate Hdoc.
Defined.

End Samples.

(** ** Further properties of the facade *)

Section FurtherProperties.

Context `{Platform}.

(** *** The status id *)

Lemma indexOf_split (c : ascii) (s : string) :
  (0 <= QString.indexOf c s)%Z ->
  exists rest : string, s = QString.left (QString.indexOf c s) s +:+ String c rest.
Proof.
  induction s as [|a s IH]; simpl; [lia|].
  destruct (Ascii.eqb_spec a c) as [->|Hac].
  - intros _. exists s. reflexivity.
  - destruct (Z.ltb_spec (QString.indexOf c s) 0) as [Hneg|Hpos]; [lia|].
    intros _. destruct (IH Hpos) as [rest Hrest]. exists rest.
    unfold QString.left in *.
    destruct (Z.ltb_spec (QString.indexOf c s + 1) 0); [lia|].
    destruct (Z.ltb_spec (QString.indexOf c s) 0); [lia|].
    replace (Z.to_nat (QString.indexOf c s + 1)) with (S (Z.to_nat (QString.indexOf c s)))
      by lia.
    simpl. rewrite Hrest at 1. reflexivity.
Qed.

(** X1: the id that [showStatus] asks for is the status id cut before its
    first question mark: the status id is that id followed by nothing or by a
    rest that starts with a question mark, and the id holds no question mark. *)
Theorem showStatus_asks_for_id_before_query (api : TwitterApi) (statusId : string)
        (useSecretIdentity : bool) :
  exists (x : Exchange) (rest : string),
    showStatus api statusId useSecretIdentity = Done tt [Send x]
    /\ statusId = requestedId x +:+ rest
    /\ (rest = "" \/ exists tail : string, rest = String "?" tail)
    /\ QString.indexOf "?" (requestedId x) = (-1)%Z
    /\ parameters x !! 3%nat = Some ("id", requestedId x).
Proof.
  destruct (showStatus_exchange api statusId useSecretIdentity)
    as (x & Hx & _ & _ & Hid & _).
  assert (Hparameters : parameters x !! 3%nat = Some ("id", sanitizedStatus statusId)).
  { unfold showStatus in Hx.
    destruct useSecretIdentity, (secretIdentityRequestor api);
      injection Hx as <-; reflexivity. }
  assert (Hrequested : requestedId x = sanitizedStatus statusId) by exact Hid.
  exists x. rewrite Hrequested. clear Hrequested Hid. unfold sanitizedStatus in *.
  destruct (Z.leb_spec 0 (QString.indexOf "?" statusId)) as [Hq|Hq].
  - destruct (indexOf_split _ _ Hq) as [tail Htail].
    exists (String "?" tail). repeat split; try assumption.
    + right. by exists tail.
    + by apply indexOf_left.
  - exists "". repeat split; try assumption.
    + clear. induction statusId as [|a s IH]; [reflexivity|].
      change (String a s = String a (s +:+ "")). by rewrite <- IH.
    + by left.
    + pose proof (indexOf_lower_bound "?" statusId). lia.
Qed.

(** *** The secret identity *)

(** X2: on a facade without a secret identity nothing is retried. A call of
    [showStatus] or of [userTimeline], whether or not it asks for the secret
    identity, sends one exchange through the requestor and without a raw
    header; and once that exchange has completed, however the transport
    decides, exactly one signal has been emitted and nothing is in flight. *)
Theorem no_secret_identity_no_retry (api : TwitterApi)
        (transport : Exchange -> Completion) (target : string)
        (useSecretIdentity : bool) :
  secretIdentityRequestor api = None ->
  let endsWithOne (m : Api unit) :=
    exists (x : Exchange) (outcome : Signal),
      m = Done tt [Send x]
      /\ sender x = ViaRequestor (requestor api)
      /\ rawHeaders (sent x) = []
      /\ callAndRun api transport 1 m
         = Quiescent {| inFlight := []; issued := [x]; observed := [outcome] |} in
  endsWithOne (showStatus api target useSecretIdentity)
  /\ endsWithOne (userTimeline api target useSecretIdentity).
Proof.
  intros Hnone endsWithOne. subst endsWithOne. cbv beta.
  assert (Hrun : forall (m : Api unit) (x : Exchange),
             m = Done tt [Send x] ->
             (forall c : Completion,
                 exists outcome : Signal, deliver api x c = Done tt [Emit outcome]) ->
             exists outcome : Signal,
               callAndRun api transport 1 m
               = Quiescent {| inFlight := []; issued := [x]; observed := [outcome] |}).
  { intros m x -> Hone. destruct (Hone (transport x)) as [outcome Houtcome].
    exists outcome. unfold callAndRun, call.
    erewrite run_step; [| reflexivity | exact Houtcome].
    apply run_quiescent. reflexivity. }
  split.
  - assert (Hsent : exists x : Exchange,
               showStatus api target useSecretIdentity = Done tt [Send x]
               /\ sender x = ViaRequestor (requestor api)
               /\ rawHeaders (sent x) = []
               /\ onError x = SlotShowStatusError
               /\ onFinished x = SlotShowStatusFinished).
    { unfold showStatus. rewrite Hnone.
      destruct useSecretIdentity; eexists; repeat split. }
    destruct Hsent as (x & Hsent & Hsender & Hplain & Herror & Hfinished).
    destruct (Hrun _ x Hsent) as [outcome Houtcome].
    + intros c. destruct (Z.eq_dec (c_error c) NoError) as [Hok|Hfailed].
      * rewrite deliver_succeeded, Hfinished by assumption.
        apply status_finished_one_outcome. by rewrite failed_replyOf, Hok.
      * eexists. apply status_placeholder; auto.
    + by exists x, outcome.
  - assert (Hsent : exists x : Exchange,
               userTimeline api target useSecretIdentity = Done tt [Send x]
               /\ sender x = ViaRequestor (requestor api)
               /\ rawHeaders (sent x) = []
               /\ onError x = SlotUserTimelineError
               /\ onFinished x = SlotUserTimelineFinished).
    { unfold userTimeline. rewrite Hnone.
      destruct useSecretIdentity; eexists; repeat split. }
    destruct Hsent as (x & Hsent & Hsender & Hplain & Herror & Hfinished).
    destruct (Hrun _ x Hsent) as [outcome Houtcome].
    + intros c. destruct (Z.eq_dec (c_error c) NoError) as [Hok|Hfailed].
      * rewrite deliver_succeeded, Hfinished by assumption.
        apply timeline_finished_one_outcome. by rewrite failed_replyOf, Hok.
      * eexists. apply timeline_error_surfaced; auto.
    + by exists x, outcome.
Qed.

(** *** The error report *)

Lemma error_report_keys (entries : QJsonArray) (report : QVariantMap) :
  (forall key : string, is_Some (report !! key) -> key = "message" \/ key = "code") ->
  forall key : string,
    is_Some
      (fold_left
         (fun (errorResponse : QVariantMap) (errorsValue : QJsonValue) =>
            <["message" := VString
                (QJson.toString (QJson.value (QJson.toObject errorsValue) "message"))]>
              (<["code" := VString (QString.number
                  (QJson.toInt (QJson.value (QJson.toObject errorsValue) "code")))]>
                 errorResponse))
         entries report !! key) ->
    key = "message" \/ key = "code".
Proof.
  revert report. induction entries as [|entry entries IH]; intros report Hkeys key; simpl.
  - apply Hkeys.
  - apply IH. intros key'.
    rewrite !lookup_insert. repeat case_decide; subst; auto.
Qed.

(** X3: the error report always has a message and never a key besides
    message and code. It has a code exactly when the body is a JSON object
    whose errors array has at least one entry; in every other case (no JSON,
    no errors array, an empty errors array) it is the error string of the
    transport as message and nothing else. *)
Theorem error_report_shape (errorText responseText : string) :
  let report := parseErrorResponse errorText responseText in
  is_Some (report !! "message")
  /\ (forall key : string, is_Some (report !! key) -> key = "message" \/ key = "code")
  /\ (is_Some (report !! "code")
      <-> exists (object : QJsonObject) (earlier : QJsonArray) (lastEntry : QJsonValue),
          fromJson responseText = DocObject object
          /\ QJson.value object "errors" = JArray (earlier ++ [lastEntry]))
  /\ (report !! "code" = None -> report = {["message" := VString errorText]}).
Proof.
  intros report.
  assert (Hplain : forall r : QVariantMap,
             r = {["message" := VString errorText]} ->
             is_Some (r !! "message")
             /\ (forall key, is_Some (r !! key) -> key = "message" \/ key = "code")
             /\ r !! "code" = None).
  { intros r ->. split; [rewrite lookup_singleton_eq; eauto|]. split; [|reflexivity].
    intros key. rewrite lookup_singleton. case_decide; [auto|by intros [? ?]]. }
  assert (Hcases :
            (report = {["message" := VString errorText]}
             /\ ~ exists object earlier lastEntry,
                    fromJson responseText = DocObject object
                    /\ QJson.value object "errors" = JArray (earlier ++ [lastEntry]))
            \/ exists object earlier lastEntry,
                fromJson responseText = DocObject object
                /\ QJson.value object "errors" = JArray (earlier ++ [lastEntry])).
  { subst report. unfold parseErrorResponse.
    destruct (fromJson responseText) as [| |object] eqn:Hdoc;
      try (left; split; [reflexivity|]; intros (? & ? & ? & ? & _); discriminate).
    destruct (QJson.value object "errors") as [| | | | |entries|] eqn:Herrors;
      try (left; split; [reflexivity|];
           intros (object' & ? & ? & Ho & Hv); injection Ho as <-;
           rewrite Herrors in Hv; discriminate).
    destruct entries as [|entry entries] using rev_ind.
    - left. split; [reflexivity|].
      intros (object' & earlier & lastEntry & Ho & Hv). injection Ho as <-.
      rewrite Herrors in Hv. injection Hv as Hv. by destruct earlier.
    - right. by exists object, entries, entry. }
  destruct Hcases as [[Hreport Hnot] | (object & earlier & lastEntry & Hdoc & Herrors)].
  - destruct (Hplain report Hreport) as (Hmessage & Hkeys & Hcode).
    split; [assumption|]. split; [assumption|]. split; [|by intros _].
    split; [|by intros ?]. rewrite Hcode. by intros [? ?].
  - split.
    { destruct (parseErrorResponse_last errorText responseText _ _ _ Hdoc Herrors)
        as [rest Hrest].
      subst report. rewrite Hrest, lookup_insert_eq. eauto. }
    split.
    { subst report. unfold parseErrorResponse. rewrite Hdoc, Herrors. simpl.
      apply error_report_keys. intros key. rewrite lookup_insert.
      case_decide; [auto|]. rewrite lookup_empty. by intros [? ?]. }
    assert (Hcode : is_Some (report !! "code")).
    { destruct (parseErrorResponse_last errorText responseText _ _ _ Hdoc Herrors)
        as [rest Hrest].
      subst report. rewrite Hrest.
      rewrite lookup_insert_ne by discriminate. rewrite lookup_insert_eq. eauto. }
    split; [split; [intros _; by exists object, earlier, lastEntry | by intros _]|].
    intros Hnone. rewrite Hnone in Hcode. by destruct Hcode.
Qed.

Ltac placeholder_field :=
  unfold fakeTweetFor;
  repeat (rewrite lookup_insert_ne by discriminate);
  rewrite lookup_insert_eq; reflexivity.

(** *** Failures that are no block *)

Lemma reportedMessage_of_transport (c : Completion) :
  (forall object : QJsonObject, fromJson (c_body c) <> DocObject object) ->
  reportedMessage c = c_errorString c
  /\ QVar.equalsString
       (QVar.value (parseErrorResponse (c_errorString c) (c_body c)) "code") "136" = false.
Proof.
  intros Hbody. unfold reportedMessage.
  rewrite parseErrorResponse_plain.
  - split; reflexivity.
  - intros object Hdoc. by destruct (Hbody object).
Qed.

(** X4: a single-status exchange whose failure does not report the code 136
    ends with the placeholder tweet and sends nothing, whether or not a secret
    identity is configured and whether or not the exchange is a retry. The
    placeholder is flagged as a fake tweet and shows the message of the error
    report, which is the error string of the transport when the body of the
    failure is no JSON object. *)
Theorem unblocked_status_failure_gives_placeholder (api : TwitterApi) (x : Exchange)
        (c : Completion) :
  onError x = SlotShowStatusError ->
  c_error c <> NoError ->
  QVar.equalsString
    (QVar.value (parseErrorResponse (c_errorString c) (c_body c)) "code") "136" = false ->
  exists placeholder : QVariantMap,
    deliver api x c = Done tt [Emit (showStatusSuccessful placeholder)]
    /\ placeholder !! "fakeTweet" = Some (VBool true)
    /\ placeholder !! "source" = Some (VString "Piepmatz")
    /\ placeholder !! "id_str" = Some (VString (requestedId x))
    /\ placeholder !! "full_text" = Some (VString (reportedMessage c))
    /\ ((forall object : QJsonObject, fromJson (c_body c) <> DocObject object) ->
        reportedMessage c = c_errorString c).
Proof.
  intros Hslot Herr Hcode. eexists. split.
  { apply status_placeholder; auto. }
  split; [placeholder_field|].
  split; [placeholder_field|].
  split; [placeholder_field|].
  split; [placeholder_field|].
  intros Hbody. by apply reportedMessage_of_transport.
Qed.

(** *** The user timeline: the retry *)

(** X5: let a user-timeline exchange, sent by [userTimeline] without the
    secret identity while one is configured, fail with the error code 136.
    Then its completion emits no signal and sends exactly one exchange,
    through the secret identity, with the no-recursion header and for the same
    screen name; and the whole run issues these two exchanges and lets the
    caller observe exactly one signal, [userTimelineSuccessful] or
    [userTimelineError]. *)
Theorem blocked_timeline_retried_once (api : TwitterApi) (secret : O1Requestor)
        (screenName : string) (x : Exchange) (c : Completion) :
  secretIdentityRequestor api = Some secret ->
  userTimeline api screenName false = Done tt [Send x] ->
  c_error c <> NoError ->
  QVar.value (parseErrorResponse (c_errorString c) (c_body c)) "code" = VString "136" ->
  exists retried : Exchange,
    deliver api x c = Done tt [Send retried]
    /\ sender retried = ViaRequestor secret
    /\ hasRawHeader (sent retried) HEADER_NO_RECURSION = true
    /\ UrlQuery.queryItemValue (urlQuery (url (sent retried))) "screen_name" = screenName
    /\ (forall transport : Exchange -> Completion,
          transport x = c ->
          exists outcome : Signal,
            callAndRun api transport 2 (userTimeline api screenName false)
            = Quiescent {| inFlight := []; issued := [x; retried];
                           observed := [outcome] |}
            /\ ((exists result : QVariantList, outcome = userTimelineSuccessful result)
                \/ exists errorMessage : string, outcome = userTimelineError errorMessage)).
Proof.
  intros Hsecret Hsent Herr Hcode.
  destruct (userTimeline_exchange api screenName false)
    as (x0 & Hx0 & Herror & Hfinished & Hname & Hsender & Hplain).
  rewrite Hsent in Hx0. injection Hx0 as <-.
  destruct (userTimeline_exchange api
              (UrlQuery.queryItemValue (urlQuery (url (sent x))) "screen_name") true)
    as (retried & Hretried & Herror' & Hfinished' & Hname' & Hmarked).
  rewrite Hsecret in Hmarked. destruct Hmarked as [Hsender' Hmarked].
  assert (Hdeliver : deliver api x c = Done tt [Send retried]).
  { rewrite <- Hretried. apply timeline_retried; try assumption.
    - rewrite Hsecret. discriminate.
    - rewrite Hcode. reflexivity. }
  exists retried. repeat split; try assumption.
  { by rewrite Hname', Hname. }
  intros transport Htransport.
  assert (Houtcome : exists outcome : Signal,
             deliver api retried (transport retried) = Done tt [Emit outcome]
             /\ ((exists result, outcome = userTimelineSuccessful result)
                 \/ exists errorMessage, outcome = userTimelineError errorMessage)).
  { destruct (Z.eq_dec (c_error (transport retried)) NoError) as [Hok|Hfailed].
    - rewrite deliver_succeeded by assumption. rewrite Hfinished'. simpl.
      unfold handleUserTimelineFinished. rewrite failed_replyOf, Hok. simpl.
      destruct (fromJson (c_body (transport retried))); eexists; split; eauto.
    - eexists. split; [apply timeline_error_surfaced; auto|]. eauto. }
  destruct Houtcome as (outcome & Houtcome & Hkind).
  exists outcome. split; [|assumption].
  unfold callAndRun. rewrite Hsent. unfold call.
  erewrite run_step; [| reflexivity | rewrite Htransport; exact Hdeliver].
  erewrite run_step; [| reflexivity | exact Houtcome].
  apply run_quiescent. reflexivity.
Qed.

(** *** One outcome per call *)

Lemma one_completion_run (api : TwitterApi) (transport : Exchange -> Completion)
      (m : Api unit) (x : Exchange) :
  m = Done tt [Send x] ->
  (forall c : Completion, exists outcome : Signal, deliver api x c = Done tt [Emit outcome]) ->
  exists outcome : Signal,
    callAndRun api transport 1 m
    = Quiescent {| inFlight := []; issued := [x]; observed := [outcome] |}.
Proof.
  intros -> Hone. destruct (Hone (transport x)) as [outcome Houtcome].
  exists outcome. unfold callAndRun, call.
  erewrite run_step; [| reflexivity | exact Houtcome].
  apply run_quiescent. reflexivity.
Qed.

Ltac one_outcome :=
  let c := fresh "c" in
  let Hok := fresh "Hok" in
  intros c;
  destruct (Z.eq_dec (c_error c) NoError) as [Hok|Hok];
  [ rewrite deliver_succeeded by assumption; simpl;
    try unfold handleRetweetTimelineFinished; try unfold handleFollowUserFinished;
    try unfold handleUnfollowUserFinished; try unfold handleSearchTweetsFinished;
    try unfold handleSearchUsersFinished;
    rewrite failed_replyOf, Hok; simpl;
    destruct (fromJson (c_body c)); eexists; reflexivity
  | rewrite deliver_failed_error by assumption; eexists; reflexivity ].

(** X6: a call of [retweetTimeline], [followUser], [unfollowUser], or of
    [searchTweets] or [searchUsers] with a query that is not empty, sends one
    exchange and, once that exchange has completed (as the transport decides),
    has emitted exactly one signal and left nothing in flight. *)
Theorem simple_calls_end_with_one_signal (api : TwitterApi)
        (transport : Exchange -> Completion) (screenName : string)
        (first : ascii) (more : string) :
  let query := String first more in
  let endsWithOne (m : Api unit) :=
    exists (x : Exchange) (outcome : Signal),
      m = Done tt [Send x]
      /\ callAndRun api transport 1 m
         = Quiescent {| inFlight := []; issued := [x]; observed := [outcome] |} in
  endsWithOne (retweetTimeline api)
  /\ endsWithOne (followUser api screenName)
  /\ endsWithOne (unfollowUser api screenName)
  /\ endsWithOne (searchTweets api query)
  /\ endsWithOne (searchUsers api query).
Proof.
  intros query endsWithOne. subst endsWithOne query. cbv beta.
  split; [|split; [|split; [|split]]].
  - edestruct (one_completion_run api transport (retweetTimeline api)) as [outcome Hrun];
      [reflexivity | one_outcome
      | do 2 eexists; split; [reflexivity | exact Hrun]].
  - edestruct (one_completion_run api transport (followUser api screenName))
      as [outcome Hrun];
      [reflexivity | one_outcome
      | do 2 eexists; split; [reflexivity | exact Hrun]].
  - edestruct (one_completion_run api transport (unfollowUser api screenName))
      as [outcome Hrun];
      [reflexivity | one_outcome
      | do 2 eexists; split; [reflexivity | exact Hrun]].
  - edestruct (one_completion_run api transport (searchTweets api (String first more)))
      as [outcome Hrun];
      [reflexivity | one_outcome
      | do 2 eexists; split; [reflexivity | exact Hrun]].
  - edestruct (one_completion_run api transport (searchUsers api (String first more)))
      as [outcome Hrun];
      [reflexivity | one_outcome
      | do 2 eexists; split; [reflexivity | exact Hrun]].
Qed.

(** X7: the follow-state correction touches no other field: for every key
    but following, the result emitted after a follow or an unfollow call holds
    what the answer held under that key (and nothing when the answer had no
    such key). *)
Theorem follow_keeps_other_fields (api : TwitterApi) (x : Exchange) (c : Completion)
        (responseObject : QJsonObject) (key : string) :
  c_error c = NoError ->
  fromJson (c_body c) = DocObject responseObject ->
  key <> "following" ->
  (onFinished x = SlotFollowUserFinished ->
   exists result : QVariantMap,
     deliver api x c = Done tt [Emit (followUserSuccessful result)]
     /\ result !! key = QJson.toVariant <$> responseObject !! key)
  /\ (onFinished x = SlotUnfollowUserFinished ->
      exists result : QVariantMap,
        deliver api x c = Done tt [Emit (unfollowUserSuccessful result)]
        /\ result !! key = QJson.toVariant <$> responseObject !! key).
Proof.
  intros Herr Hdoc Hkey.
  assert (Hok : failed (replyOf x c) = false) by (rewrite failed_replyOf, Herr; reflexivity).
  assert (Hother : forall b : bool,
             QJson.toVariantMap (<["following" := JBool b]> (delete "following" responseObject))
             !! key = QJson.toVariant <$> responseObject !! key).
  { intros b. unfold QJson.toVariantMap. rewrite lookup_fmap.
    rewrite lookup_insert_ne by congruence. by rewrite lookup_delete_ne by congruence. }
  split; intros Hslot; eexists; (split; [|apply Hother]);
    rewrite deliver_succeeded by assumption; rewrite Hslot; simpl;
    [unfold handleFollowUserFinished | unfold handleUnfollowUserFinished];
    rewrite Hok; simpl; rewrite Hdoc; reflexivity.
Qed.

(** *** More on the search de-duplication *)

Lemma removeDuplicateTweets_distinct (original : QJsonArray) :
  NoDup (map underlyingId original) ->
  removeDuplicateTweets original = map normalized original.
Proof.
  induction original as [|entry original IH] using rev_ind; [reflexivity|].
  rewrite (map_app underlyingId). intros Hnodup.
  apply NoDup_app in Hnodup as (Hnodup & Hfresh & _).
  rewrite removeDuplicateTweets_snoc, IH by assumption.
  rewrite bool_decide_eq_false_2.
  - by rewrite (map_app normalized).
  - intros Hin. apply (Hfresh _ Hin). simpl. left.
Qed.

Lemma removeDuplicateTweets_normalized (original : QJsonArray) :
  map normalized (removeDuplicateTweets original) = removeDuplicateTweets original.
Proof.
  induction original as [|entry original IH] using rev_ind; [reflexivity|].
  rewrite removeDuplicateTweets_snoc, (map_app normalized), IH.
  by destruct (bool_decide _).
Qed.

(** X8: the search de-duplication is idempotent, it never lengthens the
    list, and it changes nothing (beyond reading every entry as an object)
    when no two entries of the answer have the same underlying id. *)
Theorem search_deduplication_stable (original : QJsonArray) :
  removeDuplicateTweets (removeDuplicateTweets original) = removeDuplicateTweets original
  /\ length (removeDuplicateTweets original) <= length original
  /\ (NoDup (map underlyingId original) ->
      removeDuplicateTweets original = map normalized original).
Proof.
  pose proof (removeDuplicate_invariant original) as (Hids & _ & Hnodup & Hsub).
  fold (removeDuplicateTweets original) in Hids, Hsub. rewrite Hids in Hnodup.
  split; [|split].
  - rewrite removeDuplicateTweets_distinct by assumption.
    apply removeDuplicateTweets_normalized.
  - apply sublist_length in Hsub. by rewrite length_map in Hsub.
  - apply removeDuplicateTweets_distinct.
Qed.

(** *** The Open Graph scraper: silence *)

(** X9: when the answer to a link-preview request arrives without error but
    has no content type, or a content type that does not name text/html (in
    any letter case), the call ends without any signal: neither
    [getOpenGraphSuccessful] nor [getOpenGraphError] is emitted, whatever the
    body holds. *)
Theorem open_graph_silent_unless_html (api : TwitterApi)
        (transport : Exchange -> Completion) (address : string) (x : Exchange) :
  getOpenGraph address = Done tt [Send x] ->
  c_error (transport x) = NoError ->
  (c_contentType (transport x) = None
   \/ exists contentTypeHeader : string,
        c_contentType (transport x) = Some contentTypeHeader
        /\ QString.containsCI "text/html" contentTypeHeader = false) ->
  deliver api x (transport x) = Done tt []
  /\ callAndRun api transport 1 (getOpenGraph address)
     = Quiescent {| inFlight := []; issued := [x]; observed := [] |}.
Proof.
  intros Hsent Herr Htype.
  assert (Hdeliver : deliver api x (transport x) = Done tt []).
  { rewrite deliver_succeeded by assumption.
    injection Hsent as <-. simpl. unfold handleGetOpenGraphFinished.
    rewrite failed_replyOf, Herr. simpl.
    destruct Htype as [-> | (contentTypeHeader & -> & ->)]; reflexivity. }
  split; [assumption|].
  unfold callAndRun. rewrite Hsent. unfold call.
  erewrite run_step; [| reflexivity | exact Hdeliver].
  apply run_quiescent. reflexivity.
Qed.

End FurtherProperties.

(** ** The patterns of the scraper

    The matcher agrees with what a pattern matches, and the search takes the
    leftmost match; from there, what the patterns of
    [handleGetOpenGraphFinished] find in a document and in a content type. *)

Section RegexProperties.

Context `{Platform}.

Import Regex RegexSpec.

Lemma append_assoc (s1 s2 s3 : string) : (s1 +:+ s2) +:+ s3 = s1 +:+ (s2 +:+ s3).
Proof.
  induction s1 as [|a s1 IH]; [reflexivity|].
  change (String a ((s1 +:+ s2) +:+ s3) = String a (s1 +:+ (s2 +:+ s3))).
  by rewrite IH.
Qed.

Lemma length_append (s1 s2 : string) :
  String.length (s1 +:+ s2) = String.length s1 + String.length s2.
Proof.
  induction s1 as [|a s1 IH]; [reflexivity|].
  change (S (String.length (s1 +:+ s2)) = S (String.length s1 + String.length s2)).
  by rewrite IH.
Qed.

Lemma take_chars_append (s1 s2 : string) :
  QString.take_chars (String.length (s1 +:+ s2) - String.length s2) (s1 +:+ s2) = s1.
Proof.
  rewrite length_append.
  replace (String.length s1 + String.length s2 - String.length s2) with (String.length s1)
    by lia.
  induction s1 as [|a s1 IH]; [by destruct s2|].
  change (String a (QString.take_chars (String.length s1) (s1 +:+ s2)) = String a s1).
  by rewrite IH.
Qed.

Lemma append_cancel_r (s1 s2 rest : string) : s1 +:+ rest = s2 +:+ rest -> s1 = s2.
Proof.
  intros Heq.
  assert (Hlen : String.length s1 = String.length s2).
  { apply (f_equal String.length) in Heq. rewrite !length_append in Heq. lia. }
  revert s2 Heq Hlen. induction s1 as [|a s1 IH]; intros [|b s2] Heq Hlen;
    try discriminate; [reflexivity|].
  injection Heq as -> Heq. injection Hlen as Hlen. f_equal. by apply IH.
Qed.

Lemma stripPrefix_Some (text s rest : string) :
  stripPrefix text s = Some rest <-> s = text +:+ rest.
Proof.
  revert s. induction text as [|a text IH]; intros s; simpl.
  - split; [by intros [= ->] | by intros ->].
  - destruct s as [|b s]; [split; discriminate|].
    destruct (Ascii.eqb_spec a b) as [->|Hab].
    + rewrite IH. split; [by intros -> | by intros [= ->]].
    + split; [discriminate | intros [= ? _]; congruence].
Qed.

Lemma star_sound {R : Type} (cls : ascii -> bool) (s : string) (k : string -> option R)
      (result : R) :
  star cls s k = Some result ->
  exists taken rest : string,
    s = taken +:+ rest /\ allChars cls taken = true /\ k rest = Some result.
Proof.
  induction s as [|a s IH]; simpl.
  - intros Hk. by exists "", "".
  - destruct (cls a) eqn:Ha.
    + destruct (star cls s k) as [r|] eqn:Hstar.
      * intros [= ->]. destruct (IH eq_refl) as (taken & rest & -> & Hall & Hk).
        exists (String a taken), rest. simpl. by rewrite Ha, Hall.
      * intros Hk. by exists "", (String a s).
    + intros Hk. by exists "", (String a s).
Qed.

Lemma star_complete {R : Type} (cls : ascii -> bool) (taken rest : string)
      (k : string -> option R) :
  allChars cls taken = true ->
  star cls (taken +:+ rest) k = None -> k rest = None.
Proof.
  induction taken as [|a taken IH]; simpl.
  - intros _. destruct rest as [|b rest]; simpl; [done|].
    destruct (cls b); [|done]. by destruct (star cls rest k).
  - intros [Ha Hall]%andb_prop. rewrite Ha.
    change ((match star cls (taken +:+ rest) k with
             | Some r => Some r
             | None => k (String a (taken +:+ rest))
             end) = None -> k rest = None).
    destruct (star cls (taken +:+ rest) k) eqn:Hstar; [discriminate|].
    intros _. by apply IH.
Qed.

Lemma Matches_split (r : Regex) (s rest : string) (cap cap' : option string) :
  Matches r s rest cap cap' -> exists taken : string, s = taken +:+ rest.
Proof.
  induction 1; eauto.
  destruct IHMatches1 as [t1 ->], IHMatches2 as [t2 ->].
  exists (t1 +:+ t2). by rewrite append_assoc.
Qed.

(** The matcher is sound: what it finds is a match of the pattern. *)
Lemma matchAt_sound {R : Type} (r : Regex) :
  forall (s : string) (cap : option string)
         (k : string -> option string -> option R) (result : R),
    matchAt r s cap k = Some result ->
    exists (rest : string) (cap' : option string),
      Matches r s rest cap cap' /\ k rest cap' = Some result.
Proof.
  induction r as [text|cls|cls|r1 IH1 r2 IH2|r IH]; intros s cap k result; simpl.
  - destruct (stripPrefix text s) as [rest|] eqn:Hstrip; [|discriminate].
    apply stripPrefix_Some in Hstrip as ->. intros Hk.
    exists rest, cap. split; [constructor|assumption].
  - intros (taken & rest & -> & Hall & Hk)%star_sound.
    exists rest, cap. split; [by constructor|assumption].
  - destruct s as [|a s]; [discriminate|].
    destruct (cls a) eqn:Ha; [|discriminate].
    intros (taken & rest & -> & Hall & Hk)%star_sound.
    exists rest, cap. split; [|assumption].
    apply (MatchesPlus cls (String a taken) rest cap); [|discriminate].
    simpl. by rewrite Ha, Hall.
  - intros (mid & cap1 & Hfirst & Hsecond)%IH1.
    apply IH2 in Hsecond as (rest & cap2 & Hsecond & Hk).
    exists rest, cap2. split; [by econstructor|assumption].
  - intros (rest & cap1 & Hmatch & Hk)%IH.
    destruct (Matches_split _ _ _ _ _ Hmatch) as [taken ->]. rewrite take_chars_append in Hk.
    exists rest, (Some taken). split; [by econstructor|assumption].
Qed.

(** The matcher is complete: it fails only when the pattern has no match
    that the continuation accepts. *)
Lemma matchAt_complete {R : Type} (r : Regex) :
  forall (s rest : string) (cap cap' : option string)
         (k : string -> option string -> option R),
    Matches r s rest cap cap' ->
    matchAt r s cap k = None -> k rest cap' = None.
Proof.
  induction r as [text|cls|cls|r1 IH1 r2 IH2|r IH]; intros s rest cap cap' k Hmatch;
    inversion Hmatch; subst.
  - simpl. rewrite (proj2 (stripPrefix_Some text (text +:+ rest) rest) eq_refl). done.
  - simpl. by apply (star_complete cls taken rest (fun rest0 => k rest0 cap')).
  - destruct taken as [|a taken]; [done|].
    match goal with Hall : allChars _ _ = true |- _ =>
      simpl in Hall; apply andb_prop in Hall as [Ha Hall] end.
    change (matchAt (Plus cls) (String a (taken +:+ rest)) cap' k = None
            -> k rest cap' = None).
    simpl. rewrite Ha.
    by apply (star_complete cls taken rest (fun rest0 => k rest0 cap')).
  - simpl. intros Hnone. eapply IH2; [eassumption|].
    eapply (IH1 _ _ _ _ (fun rest cap' => matchAt r2 rest cap' k)); eassumption.
  - simpl. intros Hnone.
    match goal with Hinner : Matches r _ _ _ _ |- _ =>
      pose proof (IH _ _ _ _ _ Hinner Hnone) as Hk end.
    simpl in Hk. by rewrite take_chars_append in Hk.
Qed.

Lemma matchHere_sound (r : Regex) (s : string) (m : Match) :
  matchHere r s = Some m ->
  exists cap : option string,
    Matches r s (after m) None cap /\ captured m = default "" cap.
Proof.
  unfold matchHere. intros (rest & cap & Hmatch & [= <-])%matchAt_sound.
  by exists cap.
Qed.

Lemma matchHere_complete (r : Regex) (s rest : string) (cap : option string) :
  Matches r s rest None cap -> matchHere r s <> None.
Proof.
  unfold matchHere. intros Hmatch Hnone.
  by pose proof (matchAt_complete r _ _ _ _ _ Hmatch Hnone).
Qed.

(** The search finds a match exactly when the subject holds one. *)
Lemma search_sound (r : Regex) (s : string) (m : Match) :
  search r s = Some m ->
  exists before : string, MatchesIn r s before (captured m) (after m).
Proof.
  induction s as [|a s IH]; simpl.
  - destruct (matchHere r "") as [m'|] eqn:Hhere; [|discriminate].
    intros [= ->]. apply matchHere_sound in Hhere as (cap & Hmatch & Hcap).
    exists "", "", cap. by repeat split.
  - destruct (matchHere r (String a s)) as [m'|] eqn:Hhere.
    + intros [= ->]. apply matchHere_sound in Hhere as (cap & Hmatch & Hcap).
      exists "", (String a s), cap. by repeat split.
    + intros (before & matched & cap & -> & Hmatch & Hcap)%IH.
      exists (String a before), matched, cap. by repeat split.
Qed.

Lemma search_complete (r : Regex) (s before captured rest : string) :
  MatchesIn r s before captured rest -> search r s <> None.
Proof.
  intros (matched & cap & -> & Hmatch & _). induction before as [|a before IH].
  - change ("" +:+ matched) with matched.
    destruct matched; simpl;
      destruct (matchHere r _) eqn:Hhere; try discriminate;
      by apply matchHere_complete in Hmatch.
  - change (String a before +:+ matched) with (String a (before +:+ matched)).
    simpl. by destruct (matchHere r _).
Qed.

Ltac invert_matches :=
  repeat match goal with
         | H : Matches (Seq _ _) _ _ _ _ |- _ => inversion H; clear H; subst
         | H : Matches (Lit _) _ _ _ _ |- _ => inversion H; clear H; subst
         | H : Matches (Star _) _ _ _ _ |- _ => inversion H; clear H; subst
         | H : Matches (Plus _) _ _ _ _ |- _ => inversion H; clear H; subst
         | H : Matches (Cap _) _ _ _ _ |- _ => inversion H; clear H; subst
         end.

Lemma openGraphTag_parts (name ws1 ws2 content rest : string) :
  openGraphTag name ws1 ws2 content +:+ rest
  = "<meta" +:+ ws1 +:+ ("property=" +:+ quoted ("og:" +:+ name)) +:+ ws2
    +:+ ("content=" +:+ String (ascii_of_nat dquote) "") +:+ content
    +:+ String (ascii_of_nat dquote) "" +:+ rest.
Proof.
  unfold openGraphTag, quoted. rewrite !append_assoc. reflexivity.
Qed.

Lemma ogRegex_matches (name s rest : string) (cap : option string) :
  Matches (ogRegex name) s rest None cap
  <-> exists ws1 ws2 content : string,
      s = openGraphTag name ws1 ws2 content +:+ rest
      /\ isSpaceRun ws1 /\ isSpaceRun ws2 /\ isTagValue content
      /\ cap = Some content.
Proof.
  unfold ogRegex, isSpaceRun, isTagValue. split.
  - intros Hmatch. invert_matches.
    match goal with
    | H : _ +:+ _ = _ +:+ _ |- _ => apply append_cancel_r in H; subst
    end.
    match goal with
    | |- exists ws1 ws2 content : string,
          _ +:+ ?a +:+ _ +:+ ?b +:+ _ +:+ ?c +:+ _ = _ /\ _ =>
        exists a, b, c
    end.
    split; [by rewrite openGraphTag_parts|].
    repeat split; assumption.
  - intros (ws1 & ws2 & content & -> & [? ?] & [? ?] & [? ?] & ->).
    rewrite openGraphTag_parts.
    eapply MatchesSeq; [apply MatchesLit|].
    eapply MatchesSeq; [by apply MatchesPlus|].
    eapply MatchesSeq; [apply MatchesLit|].
    eapply MatchesSeq; [by apply MatchesPlus|].
    eapply MatchesSeq; [apply MatchesLit|].
    eapply MatchesSeq; [eapply MatchesCap; by apply MatchesPlus|].
    apply MatchesLit.
Qed.

(** The search takes the leftmost match. *)
Lemma search_leftmost (r : Regex) (s : string) (m : Match) :
  search r s = Some m ->
  exists before : string,
    MatchesIn r s before (captured m) (after m)
    /\ forall before' captured' rest' : string,
        MatchesIn r s before' captured' rest' ->
        String.length before <= String.length before'.
Proof.
  induction s as [|a s IH]; simpl.
  - destruct (matchHere r "") as [m'|] eqn:Hhere; [|discriminate].
    intros [= ->]. apply matchHere_sound in Hhere as (cap & Hmatch & Hcap).
    exists "". split; [exists "", cap; by repeat split|]. intros; simpl; lia.
  - destruct (matchHere r (String a s)) as [m'|] eqn:Hhere.
    + intros [= ->]. apply matchHere_sound in Hhere as (cap & Hmatch & Hcap).
      exists "". split; [exists (String a s), cap; by repeat split|].
      intros; simpl; lia.
    + intros (before & (matched & cap & -> & Hmatch & Hcap) & Hleft)%IH.
      exists (String a before). split; [exists matched, cap; by repeat split|].
      intros [|b before'] captured' rest' (matched' & cap' & Heq & Hmatch' & Hcap').
      * change ("" +:+ matched') with matched' in Heq. subst matched'.
        by apply matchHere_complete in Hmatch'.
      * change (String b before' +:+ matched') with (String b (before' +:+ matched')) in Heq.
        injection Heq as -> Heq. simpl.
        apply le_n_S, (Hleft before' captured' rest').
        exists matched', cap'. by repeat split.
Qed.

(** A run of characters of a class that ends before a character outside the
    class is determined by the text. *)
Lemma run_unique (cls : ascii -> bool) (x x' r r' : string) (c c' : ascii) :
  allChars cls x = true -> allChars cls x' = true ->
  cls c = false -> cls c' = false ->
  x +:+ String c r = x' +:+ String c' r' ->
  x = x' /\ c = c' /\ r = r'.
Proof.
  revert x'. induction x as [|a x IH]; intros [|a' x']; simpl.
  - intros _ _ _ _ [= -> ->]. done.
  - intros _ [Ha' _]%andb_prop Hc _ [= -> _]. congruence.
  - intros [Ha _]%andb_prop _ _ Hc' [= -> _]. congruence.
  - intros [_ Hx]%andb_prop [_ Hx']%andb_prop Hc Hc' [= -> Heq].
    destruct (IH x' Hx Hx' Hc Hc' Heq) as (-> & -> & ->). done.
Qed.

(** Two readings of a text as a tag agree. *)
Lemma openGraphTag_unique (name ws1 ws2 content rest ws1' ws2' content' rest' : string) :
  isSpaceRun ws1 -> isSpaceRun ws2 -> isTagValue content ->
  isSpaceRun ws1' -> isSpaceRun ws2' -> isTagValue content' ->
  openGraphTag name ws1 ws2 content +:+ rest
  = openGraphTag name ws1' ws2' content' +:+ rest' ->
  content = content' /\ rest = rest'.
Proof.
  intros [_ H1] [_ H2] [_ H3] [_ H1'] [_ H2'] [_ H3'].
  rewrite !openGraphTag_parts. intros Heq.
  apply String.app_inj in Heq.
  change ("property=" +:+ ?q) with (String "p" ("roperty=" +:+ q)) in Heq.
  apply (run_unique qchar_isSpace) in Heq as (-> & _ & Heq); try done.
  apply String.app_inj in Heq.
  change ("content=" +:+ ?q) with (String "c" ("ontent=" +:+ q)) in Heq.
  apply (run_unique qchar_isSpace) in Heq as (-> & _ & Heq); try done.
  apply String.app_inj in Heq.
  change (String (ascii_of_nat dquote) "" +:+ ?q) with (String (ascii_of_nat dquote) q) in Heq.
  apply (run_unique (fun a => negb (char_in [dquote] a))) in Heq as (-> & _ & ->); done.
Qed.

(** X10: the pattern of an Open Graph tag finds the first tag of its name.
    When the search succeeds, the document reads: some text, the tag (the
    text <meta, white space, the property attribute with the quoted value
    og:NAME, white space, the content attribute with a quoted value that is
    not empty and holds no double quote), and the rest; the captured text is
    that value and the text after the match is that rest; no such tag starts
    earlier in the document, and a tag read at the same place has the same
    value. The search fails exactly when the document holds no such tag. *)
Theorem open_graph_pattern_finds_first_tag (name document : string) :
  (forall found : Match,
      search (ogRegex name) document = Some found ->
      exists before ws1 ws2 : string,
        document = before +:+ openGraphTag name ws1 ws2 (captured found) +:+ after found
        /\ isSpaceRun ws1 /\ isSpaceRun ws2 /\ isTagValue (captured found)
        /\ forall before' ws1' ws2' content' rest' : string,
            isSpaceRun ws1' -> isSpaceRun ws2' -> isTagValue content' ->
            document = before' +:+ openGraphTag name ws1' ws2' content' +:+ rest' ->
            String.length before <= String.length before'
            /\ (before' = before -> content' = captured found))
  /\ (search (ogRegex name) document = None
      <-> forall before ws1 ws2 content rest : string,
          isSpaceRun ws1 -> isSpaceRun ws2 -> isTagValue content ->
          document <> before +:+ openGraphTag name ws1 ws2 content +:+ rest).
Proof.
  split.
  - intros found (before & (matched & cap & -> & Hmatch & Hcap) & Hleft)%search_leftmost.
    apply ogRegex_matches in Hmatch as (ws1 & ws2 & content & -> & Hws1 & Hws2 & Hvalue & ->).
    simpl in Hcap. rewrite Hcap.
    exists before, ws1, ws2. repeat split; try apply Hws1; try apply Hws2; try apply Hvalue.
    + apply (Hleft before' content' rest').
      exists (openGraphTag name ws1' ws2' content' +:+ rest'), (Some content').
      split; [assumption|]. split; [|reflexivity].
      apply ogRegex_matches. by exists ws1', ws2', content'.
    + intros ->. match goal with Heq : _ = _ |- _ => apply String.app_inj in Heq;
        symmetry in Heq; by apply openGraphTag_unique in Heq as [? _] end.
  - split.
    + intros Hnone before ws1 ws2 content rest Hws1 Hws2 Hvalue ->.
      eapply (search_complete (ogRegex name)); [|exact Hnone].
      exists (openGraphTag name ws1 ws2 content +:+ rest), (Some content).
      split; [reflexivity|]. split; [|reflexivity].
      apply ogRegex_matches. by exists ws1, ws2, content.
    + intros Hno. destruct (search (ogRegex name) document) as [found|] eqn:Hsearch;
        [|reflexivity].
      apply search_sound in Hsearch as (before & matched & cap & -> & Hmatch & _).
      apply ogRegex_matches in Hmatch as (ws1 & ws2 & content & -> & Hws1 & Hws2 & Hvalue & _).
      by destruct (Hno before ws1 ws2 content (after found)).
Qed.

Lemma upper_char_token (a : ascii) :
  charsetTokenChar a = true -> charsetTokenChar (QString.upper_char a) = true.
Proof.
  destruct a as [[] [] [] [] [] [] [] []]; vm_compute; congruence.
Qed.

Lemma toUpper_token (token : string) :
  allChars charsetTokenChar token = true ->
  allChars charsetTokenChar (QString.toUpper token) = true.
Proof.
  induction token as [|a token IH]; simpl; [done|].
  intros [Ha Htoken]%andb_prop. by rewrite upper_char_token, IH.
Qed.

Lemma globalMatchFrom_search (fuel : nat) (r : Regex) (s : string) (m : Match) :
  m ∈ globalMatchFrom fuel r s -> exists s' : string, search r s' = Some m.
Proof.
  revert s. induction fuel as [|fuel IH]; intros s; simpl.
  - by intros ?%elem_of_nil.
  - destruct (search r s) as [m'|] eqn:Hsearch; [|by intros ?%elem_of_nil].
    intros [->|Hin]%elem_of_cons; [by exists s|by apply (IH (after m'))].
Qed.

Lemma charset_capture (s rest : string) (cap : option string) :
  Matches charsetRegularExpression s rest None cap ->
  exists token : string, cap = Some token /\ allChars charsetTokenChar token = true.
Proof.
  unfold charsetRegularExpression. intros Hmatch. invert_matches.
  match goal with
  | Hsame : _ +:+ rest = _ +:+ rest |- _ => apply append_cancel_r in Hsame; subst
  end.
  eexists. split; [reflexivity|].
  match goal with
  | Hclass : allChars _ ?token = true |- allChars _ ?token = true => exact Hclass
  end.
Qed.

(** X12: every charset that the scraper reads off a content type is free of
    white space, quotes, commas and greater-than signs, also after it has
    been put in upper case; and the charset in which the document is decoded
    is UTF-8, or else one of the declared charsets, UTF-8 not being declared:
    so the name handed to the codec lookup is free of those characters
    too. *)
Theorem declared_charsets_are_tokens (contentTypeHeader : string) :
  (forall token : string,
      token ∈ availableCharsetsOf contentTypeHeader ->
      allChars charsetTokenChar token = true)
  /\ (charsetOf contentTypeHeader = "UTF-8"
      \/ (charsetOf contentTypeHeader ∈ availableCharsetsOf contentTypeHeader
          /\ "UTF-8" ∉ availableCharsetsOf contentTypeHeader))
  /\ allChars charsetTokenChar (charsetOf contentTypeHeader) = true.
Proof.
  assert (Hchosen : charsetOf contentTypeHeader = "UTF-8"
                    \/ (charsetOf contentTypeHeader ∈ availableCharsetsOf contentTypeHeader
                        /\ "UTF-8" ∉ availableCharsetsOf contentTypeHeader)).
  { unfold charsetOf.
    destruct (availableCharsetsOf contentTypeHeader) as [|token tokens _] using rev_ind;
      [by left|].
    rewrite length_app. simpl.
    replace (0 <? length tokens + 1)%nat with true by (symmetry; apply Nat.ltb_lt; lia).
    destruct (bool_decide_reflect ("UTF-8" ∈ tokens ++ [token])) as [Hin|Hnotin]; simpl;
      [by left|].
    right. rewrite last_last. split; [|assumption].
    apply elem_of_app. right. by apply list_elem_of_singleton. }
  assert (Htokens : forall token : string,
             token ∈ availableCharsetsOf contentTypeHeader ->
             allChars charsetTokenChar token = true).
  { unfold availableCharsetsOf. intros token (m & -> & Hin)%list_elem_of_fmap.
    apply globalMatchFrom_search in Hin as [s' Hsearch].
    apply search_sound in Hsearch as (before & matched & cap & _ & Hmatch & ->).
    apply charset_capture in Hmatch as (token & -> & Htoken).
    by apply toUpper_token. }
  split; [exact Htokens|]. split; [exact Hchosen|].
  destruct Hchosen as [-> | [Hin _]]; [reflexivity | by apply Htokens].
Qed.

(** What the result of a scan holds under each key. *)
Lemma scanned_lookup (address document : string) (result : QVariantMap) (key : string) :
  scanOpenGraph address document = Done tt [Emit (getOpenGraphSuccessful result)] ->
  result !! key
  = if decide (key = "title") then
      Some (VString (match search titleRegex document with
                     | Some found => captured found
                     | None => address
                     end))
    else if decide (key = "url") then Some (VString address)
    else if decide (key = "description") then
      (fun found => VString (captured found)) <$> search descriptionRegex document
    else if decide (key = "image") then
      (fun found => VString (captured found)) <$> search imageRegex document
    else None.
Proof.
  unfold scanOpenGraph.
  set (data := insertCaptured titleRegex document "title" _).
  assert (Hdata : data !! key
                  = if decide (key = "title") then
                      match search titleRegex document with
                      | Some found => Some (VString (captured found))
                      | None => None
                      end
                    else if decide (key = "description") then
                      (fun found => VString (captured found))
                        <$> search descriptionRegex document
                    else if decide (key = "image") then
                      (fun found => VString (captured found))
                        <$> search imageRegex document
                    else if decide (key = "url") then
                      (fun found => VString (captured found))
                        <$> search urlRegex document
                    else None).
  { unfold data. rewrite !insertCaptured_lookup, lookup_empty.
    destruct (search titleRegex document), (search descriptionRegex document),
      (search imageRegex document), (search urlRegex document);
      repeat case_decide; simplify_eq/=; done. }
  assert (Htitle : data !! "title"
                   = (fun found => VString (captured found)) <$> search titleRegex document).
  { unfold data. rewrite insertCaptured_lookup.
    destruct (search titleRegex document); [reflexivity|].
    rewrite !insertCaptured_lookup.
    destruct (search descriptionRegex document), (search imageRegex document),
      (search urlRegex document); reflexivity. }
  destruct (bool_decide (data = ∅)); [discriminate|].
  intros [= <-].
  rewrite (lookup_insert_ne data "url" "title") by discriminate. rewrite Htitle.
  destruct (search titleRegex document) as [found|] eqn:Hfound; simpl.
  - rewrite lookup_insert, Hdata.
    repeat case_decide; simplify_eq/=; done.
  - unfold QVar.value. rewrite lookup_insert_eq. simpl.
    rewrite !lookup_insert, Hdata.
    repeat case_decide; simplify_eq/=; done.
Qed.

(** X11: the image and the description of a link preview come from the
    page's first tag. In the result that a scan emits, no key occurs besides
    url, image, description and title; the image (the description) is absent
    exactly when the document holds no og:image (og:description) tag; and
    when it is present it is a string, the value of a tag of that name in the
    document, before which no tag of that name starts. *)
Theorem open_graph_preview_fields (address document name : string)
        (result : QVariantMap) :
  scanOpenGraph address document = Done tt [Emit (getOpenGraphSuccessful result)] ->
  name = "image" \/ name = "description" ->
  (forall key : string,
      is_Some (result !! key) -> key ∈ ["url"; "image"; "description"; "title"])
  /\ (result !! name = None
      <-> forall before ws1 ws2 content rest : string,
            isSpaceRun ws1 -> isSpaceRun ws2 -> isTagValue content ->
            document <> before +:+ openGraphTag name ws1 ws2 content +:+ rest)
  /\ (forall value : QVariant,
        result !! name = Some value ->
        exists before ws1 ws2 content rest : string,
          value = VString content
          /\ document = before +:+ openGraphTag name ws1 ws2 content +:+ rest
          /\ isSpaceRun ws1 /\ isSpaceRun ws2 /\ isTagValue content
          /\ forall before' ws1' ws2' content' rest' : string,
               isSpaceRun ws1' -> isSpaceRun ws2' -> isTagValue content' ->
               document = before' +:+ openGraphTag name ws1' ws2' content' +:+ rest' ->
               String.length before <= String.length before').
Proof.
  intros Hscan Hname.
  assert (Hfield : result !! name
                   = (fun found => VString (captured found))
                       <$> search (ogRegex name) document).
  { rewrite (scanned_lookup address document result name Hscan).
    destruct Hname as [-> | ->]; reflexivity. }
  split; [|split].
  - intros key. rewrite (scanned_lookup address document result key Hscan).
    clear Hname Hfield. repeat case_decide; subst; set_solver.
  - rewrite Hfield, fmap_None. split.
    + intros Hnone before ws1 ws2 content rest Hws1 Hws2 Hvalue ->.
      eapply (search_complete (ogRegex name)); [|exact Hnone].
      exists (openGraphTag name ws1 ws2 content +:+ rest), (Some content).
      split; [reflexivity|]. split; [|reflexivity].
      apply ogRegex_matches. by exists ws1, ws2, content.
    + intros Hno. destruct (search (ogRegex name) document) as [found|] eqn:Hsearch;
        [|reflexivity].
      apply search_sound in Hsearch as (before & matched & cap & -> & Hmatch & _).
      apply ogRegex_matches in Hmatch
          as (ws1 & ws2 & content & -> & Hws1 & Hws2 & Hvalue & _).
      by destruct (Hno before ws1 ws2 content (after found)).
  - intros value. rewrite Hfield.
    destruct (search (ogRegex name) document) as [found|] eqn:Hsearch; [|discriminate].
    intros [= <-].
    apply search_leftmost in Hsearch as (before & Hin & Hleft).
    destruct Hin as (matched & cap & -> & Hmatch & Hcap).
    apply ogRegex_matches in Hmatch
        as (ws1 & ws2 & content & -> & Hws1 & Hws2 & Hvalue & ->).
    simpl in Hcap. rewrite Hcap.
    exists before, ws1, ws2, content, (after found). repeat split; try assumption;
      try apply Hws1; try apply Hws2; try apply Hvalue.
    intros before' ws1' ws2' content' rest' Hws1' Hws2' Hvalue' Heq.
    apply (Hleft before' content' rest').
    exists (openGraphTag name ws1' ws2' content' +:+ rest'), (Some content').
    split; [assumption|]. split; [|reflexivity].
    apply ogRegex_matches. by exists ws1', ws2', content'.
Qed.

End RegexProperties.

(** ** Properties of the generic requests

    [genericRequest] and [runRawRequest] never mark a request with the
    no-recursion header: with the generic handlers every exchange ends with
    one signal, and with the error handlers of the status and of the user
    timeline, as the later state of the file connects them, a retry is
    itself retried. *)

Section GenericProperties.

Context `{Platform} `{Refactored.Parameters}.

Lemma fold_left_snoc {A B : Type} (f : A -> B) (l : list A) (init : list B) :
  fold_left (fun (acc : list B) (a : A) => acc ++ [f a]) l init = init ++ map f l.
Proof.
  revert init. induction l as [|a l IH]; intros init; simpl.
  - by rewrite app_nil_r.
  - by rewrite IH, <- app_assoc.
Qed.

(** X13: what [runRawRequest] sends is what it signs. The signing parameters
    are the parameters in the order of their keys, with their values as
    given; the query of the URL holds the same items in the same order with
    percent-encoded values, or nothing when the query is not asked for; the
    request is given the form content type and no raw header; a POST carries the
    encoded signing parameters as its body and a GET carries no body; and the
    request goes through another requestor than the usual one only when the
    secret identity was asked for, and then through the secret identity. *)
Theorem raw_request_signs_what_it_sends (api : TwitterApi) (apiCall : string)
        (isGetRequest : bool) (parameters : Refactored.ParametersList)
        (includeQueryParameters useSecretIdentity : bool) :
  let sent :=
    Refactored.runRawRequest api apiCall isGetRequest parameters
                             includeQueryParameters useSecretIdentity in
  Refactored.preparedParameters sent
  = map (fun key => (key, Refactored.valueOf parameters key))
        (Refactored.keys parameters)
  /\ urlQuery (url (Refactored.rawSent sent))
     = (if includeQueryParameters
        then map (fun item => (fst item, toPercentEncoding (snd item)))
                 (Refactored.preparedParameters sent)
        else [])
  /\ rawHeaders (Refactored.rawSent sent) = []
  /\ knownHeaders (Refactored.rawSent sent) = [(ContentTypeHeader, O2_MIME_TYPE_XFORM)]
  /\ Refactored.rawPostData sent
     = (if isGetRequest then ""
        else createQueryParameters (Refactored.preparedParameters sent))
  /\ (Refactored.usedRequestor sent <> requestor api ->
      useSecretIdentity = true
      /\ secretIdentityRequestor api = Some (Refactored.usedRequestor sent)).
Proof.
  intros sent.
  assert (Hprepared : Refactored.preparedParameters sent
                      = map (fun key => (key, Refactored.valueOf parameters key))
                            (Refactored.keys parameters)).
  { unfold sent, Refactored.runRawRequest.
    destruct isGetRequest; simpl; apply (fold_left_snoc _ _ []). }
  split; [exact Hprepared|]. split; [|split; [|split; [|split]]].
  - rewrite Hprepared, map_map. unfold sent, Refactored.runRawRequest.
    destruct isGetRequest, includeQueryParameters; simpl; try reflexivity;
      unfold UrlQuery.addQueryItem;
      apply (fold_left_snoc
               (fun key => (key, toPercentEncoding (Refactored.valueOf parameters key)))
               _ []).
  - unfold sent, Refactored.runRawRequest.
    by destruct isGetRequest, includeQueryParameters.
  - unfold sent, Refactored.runRawRequest.
    by destruct isGetRequest, includeQueryParameters.
  - unfold sent, Refactored.runRawRequest. by destruct isGetRequest.
  - unfold sent, Refactored.runRawRequest.
    destruct isGetRequest, useSecretIdentity, (secretIdentityRequestor api); simpl;
      intros Hother; (done || by split).
Qed.

(** A reply as the transport completes it, failed or not. *)
Lemma failed_replyTo (x : Refactored.GenericExchange) (c : Completion) :
  failed (Refactored.replyTo x c) = negb (c_error c =? NoError)%Z.
Proof. reflexivity. Qed.

(** X14: a generic request with the generic handlers ends with exactly one
    signal and is never retried. [genericRequest] sends one exchange; when it
    completes, the error signal carries the message of the error report if
    the reply failed; the success signal carries the decoded object (array)
    if the reply succeeded with a JSON object (array) and the signal takes a
    map (list); and the error signal carries the default message in every
    other case. After that one completion nothing is in flight. *)
Theorem generic_request_ends_with_one_signal (api : TwitterApi)
        (transport : Refactored.GenericExchange -> Completion)
        (apiCall title : string) (successSignal : Refactored.ApiResult)
        (errorSignal : string -> Signal) (isGetRequest : bool)
        (parameters : Refactored.ParametersList)
        (includeQueryParameters useSecretIdentity : bool) :
  exists x : Refactored.GenericExchange,
    Refactored.genericRequest api apiCall title successSignal errorSignal isGetRequest
      parameters includeQueryParameters
      (Some Refactored.GenericHandlerFinished) (Some Refactored.GenericHandlerFailure)
      useSecretIdentity
    = [Refactored.Requested x]
    /\ let c := transport x in
       let outcome :=
         if negb (c_error c =? NoError)%Z then errorSignal (reportedMessage c)
         else
           match successSignal, fromJson (c_body c) with
           | Refactored.ApiResultMap signal, DocObject object =>
               signal (QJson.toVariantMap object)
           | Refactored.ApiResultList signal, DocArray array =>
               signal (QJson.toVariantList array)
           | _, _ => errorSignal DEFAULT_ERROR_MESSAGE
           end in
       Refactored.deliver api x c = [Refactored.Emitted outcome]
       /\ Refactored.callAndRun api transport 1 [Refactored.Requested x]
          = Refactored.Quiescent
              {| Refactored.inFlight := []; Refactored.issued := [x];
                 Refactored.observed := [outcome] |}.
Proof.
  eexists. split; [reflexivity|].
  set (x := {| Refactored.raw := _ |}). intros c outcome.
  assert (Hdeliver : Refactored.deliver api x c = [Refactored.Emitted outcome]).
  { unfold Refactored.deliver. rewrite failed_replyTo. subst outcome.
    unfold Refactored.onErrorOf, Refactored.onFinishedOf. simpl.
    destruct successSignal as [signal|signal]; simpl;
      unfold Refactored.genericHandlerFinishedMap, Refactored.genericHandlerFinishedList,
        Refactored.genericHandlerFailure;
      rewrite failed_replyTo;
      destruct (negb (c_error c =? NoError)%Z); simpl; try reflexivity;
      destruct (fromJson (c_body c)); reflexivity. }
  split; [exact Hdeliver|].
  unfold Refactored.callAndRun. simpl. fold c. rewrite Hdeliver. reflexivity.
Qed.

Lemma finished_of_blocked (api : TwitterApi) (x : Refactored.GenericExchange)
      (c : Completion) :
  c_error c <> NoError -> Refactored.onFinishedOf x (Refactored.replyTo x c) = [].
Proof.
  intros Herr. unfold Refactored.onFinishedOf.
  destruct (Refactored.finishedHandler x) as [[]|]; [|reflexivity].
  destruct (Refactored.successSignal x);
    unfold Refactored.genericHandlerFinishedMap, Refactored.genericHandlerFinishedList;
    rewrite failed_replyTo; by destruct (Z.eqb_spec (c_error c) NoError).
Qed.

Lemma blocked_exchange_asked_again (api : TwitterApi) (secret : O1Requestor)
      (x : Refactored.GenericExchange) (c : Completion) :
  secretIdentityRequestor api = Some secret ->
  Refactored.retrying x -> Refactored.blocks c ->
  exists again : Refactored.GenericExchange,
    Refactored.deliver api x c = [Refactored.Requested again]
    /\ Refactored.retrying again
    /\ Refactored.usedRequestor (Refactored.raw again) = secret.
Proof.
  intros Hsecret [Hhandler Hplain] [Herr Hcode].
  unfold Refactored.deliver. rewrite failed_replyTo.
  destruct (Z.eqb_spec (c_error c) NoError) as [|_]; [done|]. simpl.
  rewrite (finished_of_blocked api) by assumption. rewrite app_nil_r.
  unfold Refactored.onErrorOf.
  destruct Hhandler as [-> | ->];
    unfold Refactored.handleShowStatusError, Refactored.handleUserTimelineError;
    simpl; rewrite Hcode, Hsecret; unfold hasRawHeader; rewrite Hplain; simpl;
    (eexists; split; [reflexivity|]); (split; [split|]);
    simpl; rewrite ?Hsecret; auto.
Qed.

Lemma blocked_run_goes_on (api : TwitterApi) (secret : O1Requestor)
      (transport : Refactored.GenericExchange -> Completion) (fuel : nat) :
  secretIdentityRequestor api = Some secret ->
  (forall x, Refactored.blocks (transport x)) ->
  forall (st : Refactored.Loop) (x first : Refactored.GenericExchange)
         (more : list Refactored.GenericExchange),
    Refactored.inFlight st = [x] -> Refactored.retrying x ->
    Refactored.issued st = first :: more ->
    Forall Refactored.retrying (first :: more) ->
    Forall (fun x => Refactored.usedRequestor (Refactored.raw x) = secret) more ->
    Refactored.observed st = [] ->
    exists (st' : Refactored.Loop) (more' : list Refactored.GenericExchange),
      Refactored.run api transport fuel st = Refactored.OutOfFuel st'
      /\ Refactored.issued st' = first :: more'
      /\ length more' = length more + fuel
      /\ Forall Refactored.retrying (first :: more')
      /\ Forall (fun x => Refactored.usedRequestor (Refactored.raw x) = secret) more'
      /\ Refactored.observed st' = [].
Proof.
  intros Hsecret Hblocked.
  induction fuel as [|fuel IH]; intros st x first more Hflight Hx Hissued Hall Hvia Hobserved.
  - exists st, more. simpl. rewrite Hflight.
    repeat split; try assumption. lia.
  - simpl. rewrite Hflight.
    destruct (blocked_exchange_asked_again api secret x (transport x) Hsecret Hx
                (Hblocked x)) as (again & -> & Hagain & Hsender).
    match goal with
    | |- context [Refactored.run api transport fuel ?next] =>
        destruct (IH next again first (more ++ [again]))
          as (st' & more' & Hrun & Hissued' & Hlength & Hall' & Hvia' & Hobserved')
    end.
    + reflexivity.
    + exact Hagain.
    + simpl. rewrite Hissued. reflexivity.
    + rewrite app_comm_cons. apply Forall_app. split; [assumption|].
      by apply Forall_singleton.
    + apply Forall_app. split; [assumption|]. by apply Forall_singleton.
    + simpl. rewrite Hobserved. reflexivity.
    + exists st', more'. rewrite Hrun. repeat split; try assumption.
      rewrite Hlength, length_app. simpl. lia.
Qed.

(** X15: in the later state of the file the fallback to the secret identity
    is not bounded. [showStatus] and [userTimeline] go through
    [genericRequest], which never sets the no-recursion header, and their
    error handlers still test for it: with a secret identity configured and
    every answer reporting the error code 136, each completion sends the
    request again through the secret identity. Whatever the number of
    completions allowed, the run is not over after them: as many further
    exchanges have been issued, none carrying the header, and no signal has
    been emitted. *)
Theorem generic_retry_never_ends (api : TwitterApi) (secret : O1Requestor)
        (transport : Refactored.GenericExchange -> Completion)
        (target : string) (useSecretIdentity : bool) (fuel : nat) :
  secretIdentityRequestor api = Some secret ->
  (forall x : Refactored.GenericExchange,
      c_error (transport x) <> NoError
      /\ QVar.value (parseErrorResponse (c_errorString (transport x))
                       (c_body (transport x))) "code" = VString "136") ->
  let neverEnds (m : list Refactored.Action) :=
    exists (st : Refactored.Loop) (first : Refactored.GenericExchange)
           (more : list Refactored.GenericExchange),
      m = [Refactored.Requested first]
      /\ Refactored.callAndRun api transport fuel m = Refactored.OutOfFuel st
      /\ Refactored.issued st = first :: more
      /\ length more = fuel
      /\ Refactored.observed st = []
      /\ Forall (fun x => hasRawHeader (Refactored.rawSent (Refactored.raw x))
                                       HEADER_NO_RECURSION = false
                          /\ Refactored.usedRequestor (Refactored.raw x) = secret) more in
  neverEnds (Refactored.showStatus api target useSecretIdentity)
  /\ neverEnds (Refactored.userTimeline api target useSecretIdentity).
Proof.
  intros Hsecret Hblocked neverEnds. subst neverEnds. cbv beta.
  assert (Hgeneral : forall first : Refactored.GenericExchange,
             Refactored.retrying first ->
             exists (st : Refactored.Loop) (more : list Refactored.GenericExchange),
               Refactored.callAndRun api transport fuel [Refactored.Requested first]
               = Refactored.OutOfFuel st
               /\ Refactored.issued st = first :: more
               /\ length more = fuel
               /\ Refactored.observed st = []
               /\ Forall (fun x => hasRawHeader (Refactored.rawSent (Refactored.raw x))
                                                HEADER_NO_RECURSION = false
                                   /\ Refactored.usedRequestor (Refactored.raw x) = secret)
                         more).
  { intros first Hfirst. unfold Refactored.callAndRun.
    match goal with
    | |- context [Refactored.run api transport fuel ?start] =>
        destruct (blocked_run_goes_on api secret transport fuel Hsecret Hblocked
                    start first first [])
          as (st & more & Hrun & Hissued & Hlength & Hall & Hvia & Hobserved)
    end; try reflexivity; try assumption.
    - by apply Forall_singleton.
    - apply Forall_nil_2.
    - exists st, more. repeat split; try assumption.
      apply Forall_cons in Hall as [_ Hall].
      apply Forall_forall. intros x Hin. split.
      + rewrite Forall_forall in Hall. destruct (Hall x Hin) as [_ Hplain].
        unfold hasRawHeader. by rewrite Hplain.
      + rewrite Forall_forall in Hvia. by apply Hvia. }
  split.
  - assert (Hsent : exists first : Refactored.GenericExchange,
               Refactored.showStatus api target useSecretIdentity
               = [Refactored.Requested first] /\ Refactored.retrying first).
    { eexists. split; [reflexivity|]. split; [left; reflexivity|].
      unfold Refactored.runRawRequest. reflexivity. }
    destruct Hsent as (first & -> & Hfirst).
    destruct (Hgeneral first Hfirst) as (st & more & Hrun & Hrest).
    by exists st, first, more.
  - assert (Hsent : exists first : Refactored.GenericExchange,
               Refactored.userTimeline api target useSecretIdentity
               = [Refactored.Requested first] /\ Refactored.retrying first).
    { eexists. split; [reflexivity|]. split; [right; reflexivity|].
      unfold Refactored.runRawRequest. reflexivity. }
    destruct Hsent as (first & -> & Hfirst).
    destruct (Hgeneral first Hfirst) as (st & more & Hrun & Hrest).
    by exists st, first, more.
Qed.

End GenericProperties.

(** ** The link preview as a whole *)

Section LinkPreview.

Context `{Platform}.

Lemma scanOpenGraph_one_signal (requestAddress document : string) :
  exists outcome : Signal,
    scanOpenGraph requestAddress document = Done tt [Emit outcome].
Proof.
  unfold scanOpenGraph. destruct (bool_decide _); eexists; reflexivity.
Qed.

(** X16: a link preview always ends, around both identities. [getOpenGraph]
    sends one exchange through the network manager, not through a signing
    requestor. When it has completed, the facade has crashed exactly when
    the answer arrived without error as an HTML page for whose charset the
    platform has no codec; in every other case nothing is in flight and at
    most one signal has been emitted, which for a failed answer is
    [getOpenGraphError] with the message of the error report. *)
Theorem link_preview_ends (api : TwitterApi) (transport : Exchange -> Completion)
        (address : string) :
  exists x : Exchange,
    getOpenGraph address = Done tt [Send x]
    /\ sender x = ViaManager
    /\ let c := transport x in
       let unreadable :=
         c_error c = NoError
         /\ exists contentTypeHeader : string,
              c_contentType c = Some contentTypeHeader
              /\ QString.containsCI "text/html" contentTypeHeader = true
              /\ codecForName (charsetOf contentTypeHeader) = None in
       (unreadable -> callAndRun api transport 1 (getOpenGraph address) = Crashed)
       /\ (~ unreadable ->
           exists outcomes : list Signal,
             callAndRun api transport 1 (getOpenGraph address)
             = Quiescent {| inFlight := []; issued := [x]; observed := outcomes |}
             /\ length outcomes <= 1
             /\ (c_error c <> NoError ->
                 outcomes = [getOpenGraphError (reportedMessage c)])).
Proof.
  eexists. split; [reflexivity|]. split; [reflexivity|].
  set (x := {| sender := ViaManager |}). intros c unreadable.
  assert (Hrun : callAndRun api transport 1 (getOpenGraph address)
                 = match deliver api x c with
                   | Fault => Crashed
                   | Done _ w =>
                       Quiescent {| inFlight := []; issued := [x];
                                    observed := signalsOf w |}
                   end
                 \/ exists w, deliver api x c = Done tt w /\ exchangesOf w <> []).
  { unfold callAndRun, call, getOpenGraph. fold x. simpl. fold c.
    destruct (deliver api x c) as [|[] w] eqn:Hdeliver; [by left|].
    destruct (exchangesOf w) as [|again more] eqn:Hsent.
    - left. unfold absorb. simpl. rewrite Hsent. reflexivity.
    - right. exists w. split; [reflexivity|]. by rewrite Hsent. }
  destruct (Z.eq_dec (c_error c) NoError) as [Hok|Hfailed].
  - assert (Hdeliver : deliver api x c = handleGetOpenGraphFinished (replyOf x c))
      by (by rewrite deliver_succeeded).
    unfold handleGetOpenGraphFinished in Hdeliver.
    rewrite failed_replyOf, Hok in Hdeliver. simpl in Hdeliver.
    destruct (c_contentType c) as [contentTypeHeader|] eqn:Htype.
    + destruct (QString.containsCI "text/html" contentTypeHeader) eqn:Hhtml;
        simpl in Hdeliver.
      * destruct (codecForName (charsetOf contentTypeHeader)) as [codec|] eqn:Hcodec.
        -- match type of Hdeliver with
           | _ = scanOpenGraph ?requestAddress ?document =>
               destruct (scanOpenGraph_one_signal requestAddress document)
                 as [outcome Houtcome]
           end.
           rewrite Houtcome in Hdeliver. rewrite Hdeliver in Hrun.
           destruct Hrun as [Hrun | (w & [= <-] & Hsent)]; [|done].
           split; [intros (_ & h & [= <-] & _ & Hnone); congruence|].
           intros _. exists [outcome]. split; [exact Hrun|]. split; [simpl; lia|done].
        -- rewrite Hdeliver in Hrun.
           destruct Hrun as [Hrun | (w & Hw & _)]; [|discriminate].
           split; [intros _; exact Hrun|].
           intros Hreadable. destruct Hreadable. split; [assumption|].
           by exists contentTypeHeader.
      * rewrite Hdeliver in Hrun.
        destruct Hrun as [Hrun | (w & [= <-] & Hsent)]; [|done].
        split; [intros (_ & h & [= <-] & Hh & _); congruence|].
        intros _. exists []. split; [exact Hrun|]. split; [simpl; lia|done].
    + rewrite Hdeliver in Hrun.
      destruct Hrun as [Hrun | (w & [= <-] & Hsent)]; [|done].
      split; [intros (_ & h & Hh & _); congruence|].
      intros _. exists []. split; [exact Hrun|]. split; [simpl; lia|done].
  - assert (Hdeliver : deliver api x c
                       = Done tt [Emit (getOpenGraphError (reportedMessage c))])
      by (by rewrite deliver_failed_error).
    rewrite Hdeliver in Hrun.
    destruct Hrun as [Hrun | (w & [= <-] & Hsent)]; [|done].
    split; [intros [Hok _]; contradiction|].
    intros _. exists [getOpenGraphError (reportedMessage c)].
    split; [exact Hrun|]. split; [simpl; lia|done].
Qed.

End LinkPreview.

(** ** The further properties on the sample platform *)

Section FurtherSamples.

Import Sample FurtherSample.

Lemma no_secret_identity_no_retry_witness :
  secretIdentityRequestor withoutSecret = None
  /\ exists (x : Exchange) (outcome : Signal),
       showStatus withoutSecret "20" true = Done tt [Send x]
       /\ sender x = ViaRequestor (requestor withoutSecret)
       /\ rawHeaders (sent x) = []
       /\ callAndRun withoutSecret alwaysBlocked 1 (showStatus withoutSecret "20" true)
          = Quiescent {| inFlight := []; issued := [x]; observed := [outcome] |}.
Proof.
  split; [reflexivity|].
  exact (proj1 (no_secret_identity_no_retry (H := samplePlatform) withoutSecret
                  alwaysBlocked "20" true eq_refl)).
Defined.

Lemma unblocked_status_failure_gives_placeholder_witness :
  onError (statusExchange "20") = SlotShowStatusError
  /\ c_error (denied "gone") <> NoError
  /\ QVar.equalsString
       (QVar.value (parseErrorResponse (c_errorString (denied "gone"))
                      (c_body (denied "gone"))) "code") "136" = false
  /\ exists placeholder : QVariantMap,
       deliver withSecret (statusExchange "20") (denied "gone")
       = Done tt [Emit (showStatusSuccessful placeholder)]
       /\ placeholder !! "fakeTweet" = Some (VBool true)
       /\ placeholder !! "full_text"
          = Some (VString "Error transferring - server replied: Forbidden").
Proof.
  split; [reflexivity|]. split; [discriminate|]. split; [reflexivity|].
  destruct (unblocked_status_failure_gives_placeholder (H := samplePlatform) withSecret
              (statusExchange "20") (denied "gone") eq_refl ltac:(discriminate) eq_refl)
    as (placeholder & Hdeliver & Hfake & _ & _ & Htext & Hmessage).
  exists placeholder. split; [assumption|]. split; [assumption|].
  rewrite Htext, Hmessage; [reflexivity|]. intros object. discriminate.
Defined.

Lemma blocked_timeline_retried_once_witness :
  secretIdentityRequestor withSecret = Some 2
  /\ userTimeline withSecret "piepmatz" false
     = Done tt [Send (timelineExchange "piepmatz")]
  /\ c_error (denied "blocked") <> NoError
  /\ exists retried : Exchange,
       deliver withSecret (timelineExchange "piepmatz") (denied "blocked")
       = Done tt [Send retried]
       /\ sender retried = ViaRequestor 2
       /\ hasRawHeader (sent retried) HEADER_NO_RECURSION = true
       /\ UrlQuery.queryItemValue (urlQuery (url (sent retried))) "screen_name"
          = "piepmatz".
Proof.
  split; [reflexivity|]. split; [reflexivity|]. split; [discriminate|].
  destruct (blocked_timeline_retried_once (H := samplePlatform) withSecret 2 "piepmatz"
              (timelineExchange "piepmatz") (denied "blocked")
              eq_refl eq_refl ltac:(discriminate) eq_refl)
    as (retried & Hdeliver & Hsender & Hmarked & Hname & _).
  exists retried. repeat split; assumption.
Defined.

Lemma follow_keeps_other_fields_witness :
  c_error (succeeded "user") = NoError
  /\ fromJson (c_body (succeeded "user"))
     = DocObject (<["screen_name" := JString "piepmatz"]>
                  (<["following" := JBool false]> ∅))
  /\ "screen_name" <> "following"
  /\ onFinished (followExchange "piepmatz") = SlotFollowUserFinished
  /\ exists result : QVariantMap,
       deliver withSecret (followExchange "piepmatz") (succeeded "user")
       = Done tt [Emit (followUserSuccessful result)]
       /\ result !! "screen_name" = Some (VString "piepmatz").
Proof.
  split; [reflexivity|]. split; [reflexivity|]. split; [discriminate|].
  split; [reflexivity|].
  destruct (proj1 (follow_keeps_other_fields (H := samplePlatform) withSecret
                     (followExchange "piepmatz") (succeeded "user") _ "screen_name"
                     eq_refl eq_refl ltac:(discriminate)) eq_refl)
    as (result & Hdeliver & Hkey).
  exists result. split; [assumption|]. rewrite Hkey. reflexivity.
Defined.

Lemma open_graph_silent_unless_html_witness :
  getOpenGraph "https://example.org/bird.png"
  = Done tt [Send (previewExchange "https://example.org/bird.png")]
  /\ c_error (servesPicture (previewExchange "https://example.org/bird.png")) = NoError
  /\ c_contentType (servesPicture (previewExchange "https://example.org/bird.png"))
     = Some "image/png"
  /\ QString.containsCI "text/html" "image/png" = false
  /\ callAndRun withSecret servesPicture 1 (getOpenGraph "https://example.org/bird.png")
     = Quiescent {| inFlight := []; issued := [previewExchange "https://example.org/bird.png"];
                    observed := [] |}.
Proof.
  split; [reflexivity|]. split; [reflexivity|]. split; [reflexivity|].
  split; [reflexivity|].
  exact (proj2 (open_graph_silent_unless_html (H := samplePlatform) withSecret servesPicture
                  "https://example.org/bird.png"
                  (previewExchange "https://example.org/bird.png") eq_refl eq_refl
                  (or_intror (ex_intro _ "image/png" (conj eq_refl eq_refl))))).
Defined.

Lemma open_graph_preview_fields_witness :
  scanOpenGraph "https://example.org/" pageWithImage
  = Done tt [Emit (getOpenGraphSuccessful (previewWithImage "https://example.org/"))]
  /\ (previewWithImage "https://example.org/" !! "description" = None
      <-> forall before ws1 ws2 content rest : string,
            RegexSpec.isSpaceRun ws1 -> RegexSpec.isSpaceRun ws2 ->
            RegexSpec.isTagValue content ->
            pageWithImage
            <> before +:+ RegexSpec.openGraphTag "description" ws1 ws2 content +:+ rest).
Proof.
  assert (Hscan : scanOpenGraph "https://example.org/" pageWithImage
                  = Done tt [Emit (getOpenGraphSuccessful
                                     (previewWithImage "https://example.org/"))])
    by (vm_compute; reflexivity).
  split; [exact Hscan|].
  exact (proj1 (proj2 (open_graph_preview_fields
                         "https://example.org/" pageWithImage "description"
                         (previewWithImage "https://example.org/") Hscan
                         (or_intror eq_refl)))).
Defined.

Lemma bothBlocked_blocks (x : Refactored.GenericExchange) :
  c_error (bothBlocked x) <> NoError
  /\ QVar.value (parseErrorResponse (c_errorString (bothBlocked x))
                   (c_body (bothBlocked x))) "code" = VString "136".
Proof. split; [discriminate | reflexivity]. Qed.

Lemma generic_retry_never_ends_witness :
  secretIdentityRequestor withSecret = Some 2
  /\ c_error (denied "blocked") <> NoError
  /\ QVar.value (parseErrorResponse (c_errorString (denied "blocked"))
                   (c_body (denied "blocked"))) "code" = VString "136"
  /\ exists (st : Refactored.Loop) (first : Refactored.GenericExchange)
            (more : list Refactored.GenericExchange),
       Refactored.showStatus withSecret "20" false = [Refactored.Requested first]
       /\ Refactored.callAndRun withSecret bothBlocked 3
            (Refactored.showStatus withSecret "20" false)
          = Refactored.OutOfFuel st
       /\ Refactored.issued st = first :: more
       /\ length more = 3
       /\ Refactored.observed st = [].
Proof.
  split; [reflexivity|]. split; [discriminate|]. split; [reflexivity|].
  destruct (proj1 (generic_retry_never_ends (H := samplePlatform) (H0 := sampleParameters)
                     withSecret 2 bothBlocked "20" false 3 eq_refl bothBlocked_blocks))
    as (st & first & more & Hsent & Hrun & Hissued & Hlength & Hobserved & _).
  exists st, first, more. repeat split; assumption.
Defined.

End FurtherSamples.
